(** * Sites & Demographics page: filter pipeline and aggregate views

    A shallow embedding of [page_sites_demographics]
    (src/page_sites_demographics.py).  The data frame is a list of rows,
    a column is the list of one attribute over the rows, a missing cell
    (NaN) is [None].  The page is a pure function of the loaded data and
    of the values held by its widgets; what it renders is the list of
    elements it hands to the UI, in order. *)

From Stdlib Require Import QArith.
From stdpp Require Import base list strings sorting.

Close Scope Q_scope.
#[local] Set Warnings "-clear-no-such-hyp".
Local Open Scope string_scope.
Local Open Scope nat_scope.

(** ** Data frame *)

Record Row := mkRow {
  race : option string;
  ethnicity : option string;
  gender : option string;
  age : option Q;
  site : option string;
  stage : option string;
}.

Abbreviation DataFrame := (list Row).

(** ** Cell-level operations of the data-frame library *)

Module Cell.

(** [Series.isin(values)]: a missing cell is in no list of strings. *)
Definition isin (values : list string) (v : option string) : bool :=
  match v with
  | Some s => bool_decide (s ∈ values)
  | None => false
  end.

(** [series != s]: a missing cell differs from every string. *)
Definition ne (s : string) (v : option string) : bool :=
  match v with
  | Some x => negb (String.eqb x s)
  | None => true
  end.

(** [series == s]: a missing cell equals no string. *)
Definition eq (s : string) (v : option string) : bool :=
  match v with
  | Some x => String.eqb x s
  | None => false
  end.

Definition Qlt_bool (x y : Q) : bool :=
  (Qnum x * QDen y <? Qnum y * QDen x)%Z.

(** [series <= c] and [series > c]: a missing number satisfies no
    comparison. *)
Definition le (c : Q) (v : option Q) : bool :=
  match v with
  | Some x => Qle_bool x c
  | None => false
  end.

Definition gt (c : Q) (v : option Q) : bool :=
  match v with
  | Some x => Qlt_bool c x
  | None => false
  end.

End Cell.

(** Python's [needle in hay] on strings. *)
Fixpoint contains (needle hay : string) : bool :=
  String.prefix needle hay ||
  match hay with
  | EmptyString => false
  | String _ hay' => contains needle hay'
  end.

(** Truth value of a Python list: empty is false. *)
Definition truthy {A} (l : list A) : bool :=
  match l with
  | [] => false
  | _ :: _ => true
  end.

(** [df[mask]] where the mask is a row predicate. *)
Definition select (mask : Row → bool) (df : DataFrame) : DataFrame :=
  filter (λ r, mask r) df.

(** ** Widgets *)

(** [st.selectbox(label, options)]: the value is the option at the
    index the user picked, the first option when nothing valid is
    picked. *)
Definition selectbox (options : list string) (picked : nat) : string :=
  default (default "" (head options)) (options !! picked).

Definition age_group_options : list string :=
  ["All Ages"; "Young (0-45)"; "Adult (45-65)"; "Senior (65+)"].

(** What the widgets hold when the script runs. *)
Record Widgets := mkWidgets {
  selected_races : list string;
  selected_ethnicities : list string;
  age_group_picked : nat;
  selected_genders : list string;
  selected_site_picked : nat;
}.

(** ** Apply Filters (lines 62-78) *)

Definition filter_age (age_group : string) (filtered_df : DataFrame) : DataFrame :=
  if contains "Young" age_group then
    select (λ r, Cell.le 45 (age r)) filtered_df
  else if contains "Adult" age_group then
    select (λ r, Cell.gt 45 (age r) && Cell.le 65 (age r)) filtered_df
  else if contains "Senior" age_group then
    select (λ r, Cell.gt 65 (age r)) filtered_df
  else filtered_df.

Definition filter_isin (col : Row → option string) (selected : list string)
    (filtered_df : DataFrame) : DataFrame :=
  if truthy selected then select (λ r, Cell.isin selected (col r)) filtered_df
  else filtered_df.

Definition apply_filters (brca_df : DataFrame)
    (selected_races selected_ethnicities selected_genders : list string)
    (age_group : string) : DataFrame :=
  let filtered_df := brca_df in
  let filtered_df := filter_isin race selected_races filtered_df in
  let filtered_df := filter_isin ethnicity selected_ethnicities filtered_df in
  let filtered_df := filter_isin gender selected_genders filtered_df in
  filter_age age_group filtered_df.

(** ** Column operations of the data-frame library *)

(** [dropna]: the present cells of a column, in row order. *)
Definition dropna {A} (col : list (option A)) : list A := omap id col.

(** Distinct values in order of first appearance (what the library's
    hash-table scan yields): each value is kept where it is first seen
    and struck from the rest. *)
Fixpoint unique `{EqDecision A} (l : list A) : list A :=
  match l with
  | [] => []
  | x :: xs => x :: filter (λ y, y ≠ x) (unique xs)
  end.

(** Number of cells equal to [x]. *)
Definition occurrences `{EqDecision A} (x : A) (l : list A) : nat :=
  length (filter (λ y, y = x) l).

(** Position at which [x] is first seen in [l] ([length l] when absent). *)
Fixpoint first_seen `{EqDecision A} (x : A) (l : list A) : nat :=
  match l with
  | [] => 0
  | y :: l' => if decide (y = x) then 0 else S (first_seen x l')
  end.

(** [sort_values(by, ascending=False)]: rows ordered by decreasing
    count.  The sort is taken to be stable: rows of equal count keep the
    order they had, the library leaving the order of ties open. *)
Section SortValues.
Context {A : Type} (cnt : A → nat).

Fixpoint insert_desc (x : A) (l : list A) : list A :=
  match l with
  | [] => [x]
  | y :: ys => if cnt y <=? cnt x then x :: y :: ys else y :: insert_desc x ys
  end.

Definition sort_values_desc (l : list A) : list A := foldr insert_desc [] l.
End SortValues.

(** [Series.value_counts()]: missing cells dropped, one row per
    distinct value with the number of its cells, by decreasing count. *)
Definition value_counts (col : list (option string)) : list (string * nat) :=
  let vals := dropna col in
  sort_values_desc snd ((λ s, (s, occurrences s vals)) <$> unique vals).

(** [Series.nunique()]: number of distinct present values. *)
Definition nunique (col : list (option string)) : nat :=
  length (unique (dropna col)).

(** [Series.mean()]: mean of the present values, NaN when there is none.
    Kept exact; the page prints it with one decimal. *)
Definition mean (col : list (option Q)) : option Q :=
  match dropna col with
  | [] => None
  | x :: xs => Some (foldr Qplus 0%Q (x :: xs) / inject_Z (Z.of_nat (length (x :: xs))))%Q
  end.

(** Group keys: [groupby] orders the groups by key, comparing the race
    first and the ethnicity next, each as strings. *)
Definition key_leb (k1 k2 : string * string) : bool :=
  match String.compare k1.1 k2.1 with
  | Lt => true
  | Eq => String.leb k1.2 k2.2
  | Gt => false
  end.

Fixpoint insert_key (k : string * string) (l : list (string * string)) :
    list (string * string) :=
  match l with
  | [] => [k]
  | k' :: l' => if key_leb k k' then k :: k' :: l' else k' :: insert_key k l'
  end.

Definition sort_keys (l : list (string * string)) : list (string * string) :=
  foldr insert_key [] l.

(** The cells of the two grouping columns of a row; a row with either
    one missing belongs to no group. *)
Definition group_key (r : Row) : option (string * string) :=
  match race r, ethnicity r with
  | Some a, Some b => Some (a, b)
  | _, _ => None
  end.

(** [df.groupby(["race", "ethnicity"]).size().reset_index(name="Count")] *)
Definition groupby_size (df : DataFrame) : list (string * string * nat) :=
  let keys := omap group_key df in
  (λ k, (k, occurrences k keys)) <$> sort_keys (unique keys).

(** ** Aggregate views *)

(** Lines 94-95 for a given [sort_values].  The library sorts the
    group table by decreasing count with its default sort, which is not
    stable: what it does with groups of equal count is left open, so the
    sort is a parameter here. *)
Definition demo_counts_by
    (sort_values : list (string * string * nat) → list (string * string * nat))
    (filtered_df : DataFrame) : list (string * string * nat) :=
  take 10 (sort_values (groupby_size filtered_df)).

(** Lines 94-95 with one such sort, the one that keeps groups of equal
    count in the order of the group table; the page below is rendered with
    it. *)
Definition demo_counts (filtered_df : DataFrame) : list (string * string * nat) :=
  demo_counts_by (sort_values_desc snd) filtered_df.

(** Line 108. *)
Definition age_hist (filtered_df : DataFrame) : list Q :=
  dropna (age <$> filtered_df).

(** Lines 130-132. *)
Definition site_counts (filtered_df : DataFrame) : list (string * nat) :=
  take 10 (filter (λ p, p.1 ≠ "Unknown") (value_counts (site <$> filtered_df))).

(** Lines 143-146: the options of the site selector and its value. *)
Definition site_options (filtered_df : DataFrame) : list string :=
  "All" :: unique (fst <$> site_counts filtered_df).

Definition selected_site (filtered_df : DataFrame) (picked : nat) : string :=
  selectbox (site_options filtered_df) picked.

(** Lines 151-154. *)
Definition site_filtered (filtered_df : DataFrame) (selected_site : string) : DataFrame :=
  if negb (String.eqb selected_site "All") then
    select (λ r, Cell.eq selected_site (site r)) filtered_df
  else filtered_df.

(** Lines 157-159. *)
Definition stage_counts (site_filtered : DataFrame) : list (string * nat) :=
  filter (λ p, p.1 ≠ "Unknown") (value_counts (stage <$> site_filtered)).

(** Lines 185, 189, 193. *)
Definition unique_sites (filtered_df : DataFrame) : nat :=
  nunique (site <$> filtered_df).

Definition unique_stages (filtered_df : DataFrame) : nat :=
  nunique (stage <$> select (λ r, Cell.ne "Unknown" (stage r)) filtered_df).

Definition avg_age (filtered_df : DataFrame) : option Q :=
  mean (age <$> filtered_df).

(** ** The page *)

Inductive MetricValue :=
| Count (n : nat)
| Average (m : option Q).

(** What the page hands to the UI.  Input widgets are not listed: their
    values are read from [Widgets]. *)
Inductive Element :=
| st_header (text : string)
| st_error (msg : string)
| st_sidebar_subheader (text : string)
| st_warning (msg : string)
| st_sidebar_metric (label : string) (value : nat)
| st_subheader (text : string)
| st_write (text : string)
| st_divider
| st_info (msg : string)
| st_metric (label : string) (value : MetricValue)
| demo_chart (data : list (string * string * nat))
| age_chart (data : list Q)
| site_chart (data : list (string * nat))
| stage_chart (data : list (string * nat)) (title : string).

Definition is_empty {A} (df : list A) : bool := negb (truthy df).

(** Lines 149-172. *)
Definition stage_view (filtered_df : DataFrame) (selected_site : string) : list Element :=
  let site_filtered := site_filtered filtered_df selected_site in
  [st_write "**Stage Distribution for Selected Site**"] ++
  if negb (is_empty site_filtered) then
    let stage_counts := stage_counts site_filtered in
    if negb (is_empty stage_counts) then
      [stage_chart stage_counts
         ("Stages for " +:+
          (if negb (String.eqb selected_site "All") then selected_site else "All Sites"))]
    else [st_info "No stage data available for selected site."]
  else [st_info "No data for selected site."].

(** Lines 86-194: everything rendered once the filtered frame is known
    not to be empty. *)
Definition views (filtered_df : DataFrame) (site_picked : nat) : list Element :=
  [st_sidebar_metric "Patients in View" (length filtered_df);
   st_subheader "Geographic Incidence & Demographic Composition";
   st_write "**Case Distribution by Demographics**";
   demo_chart (demo_counts filtered_df);
   st_write "**Age Distribution**"] ++
  (let age_hist := age_hist filtered_df in
   if negb (is_empty age_hist) then [age_chart age_hist] else []) ++
  [st_divider;
   st_subheader "Tumor Site & Co-occurrence Analysis";
   st_write "**Primary Sites**";
   site_chart (site_counts filtered_df)] ++
  stage_view filtered_df (selected_site filtered_df site_picked) ++
  [st_divider;
   st_subheader "Summary Statistics";
   st_metric "Total Patients" (Count (length filtered_df));
   st_metric "Unique Sites" (Count (unique_sites filtered_df));
   st_metric "Stages Represented" (Count (unique_stages filtered_df));
   st_metric "Avg Age at Diagnosis" (Average (avg_age filtered_df))].

(** Lines 19-194.  [loaded] is what [load_and_preprocess_brca] gives,
    [None] when it raises. *)
Definition page_sites_demographics (loaded : option DataFrame) (w : Widgets) :
    list Element :=
  [st_header "Sites & Demographics Map View"] ++
  match loaded with
  | None => [st_error "Error: Could not locate clinical.tsv"]
  | Some brca_df =>
    let age_group := selectbox age_group_options (age_group_picked w) in
    let filtered_df :=
      apply_filters brca_df (selected_races w) (selected_ethnicities w)
        (selected_genders w) age_group in
    [st_sidebar_subheader "Filters"] ++
    if is_empty filtered_df then
      [st_warning "No data matches current filters. Please adjust your selection."]
    else views filtered_df (selected_site_picked w)
  end.

(** ** Notions used to state the properties *)

(** Order of a table ranked by decreasing count, rows of equal count
    standing as [before] orders them. *)
Definition by_count_then {A} (cnt : A → nat) (before : relation A) : relation A :=
  λ x y, cnt y < cnt x ∨ (cnt x = cnt y ∧ before x y).

(** What [sort_values(by, ascending=False)] promises whatever the sort
    behind it: the rows of the table, each once, counts not increasing. *)
Definition sorts_by_count_desc {K} (sort_values : list (K * nat) → list (K * nat)) : Prop :=
  ∀ table, sort_values table ≡ₚ table ∧
           StronglySorted (λ p q, q.2 ≤ p.2) (sort_values table).

(** Strict order of the group keys: the race decides, the ethnicity
    breaks a tie between equal races; strings compare character by
    character. *)
Definition key_lt (k1 k2 : string * string) : Prop :=
  String.compare k1.1 k2.1 = Lt ∨
  (k1.1 = k2.1 ∧ String.compare k1.2 k2.2 = Lt).

(** The elements the stage view can render besides its caption. *)
Definition in_stage_view (e : Element) : bool :=
  match e with
  | stage_chart _ _ | st_info _ => true
  | _ => false
  end.

(** The same widget values with another pick in the site selector. *)
Definition with_site_picked (w : Widgets) (picked : nat) : Widgets :=
  {| selected_races := selected_races w;
     selected_ethnicities := selected_ethnicities w;
     age_group_picked := age_group_picked w;
     selected_genders := selected_genders w;
     selected_site_picked := picked |}.

(** The elements that come out of an aggregation. *)
Definition is_aggregate (e : Element) : bool :=
  match e with
  | st_sidebar_metric _ _ | st_metric _ _ | demo_chart _ | age_chart _
  | site_chart _ | stage_chart _ _ => true
  | _ => false
  end.

(** The unique-site count as the specification words it: distinct site
    values among the rows whose site is not "Unknown". *)
Definition unique_sites_excluding_unknown (filtered_df : DataFrame) : nat :=
  nunique (site <$> select (λ r, Cell.ne "Unknown" (site r)) filtered_df).

(** The race and ethnicity breakdown as the specification words it:
    the groups taken in the order their keys are first met, ranked by a
    stable sort on decreasing count, the first ten kept. *)
Definition demo_counts_encounter_order (filtered_df : DataFrame) :
    list (string * string * nat) :=
  let keys := omap group_key filtered_df in
  take 10 (sort_values_desc snd ((λ k, (k, occurrences k keys)) <$> unique keys)).

(** ** Sidebar options and their defaults (lines 31-59) *)

(** Python's [sorted] on strings: ascending, character by character. *)
Fixpoint insert_string (x : string) (l : list string) : list string :=
  match l with
  | [] => [x]
  | y :: l' => if String.leb x y then x :: y :: l' else y :: insert_string x l'
  end.

Definition sorted (l : list string) : list string := foldr insert_string [] l.

(** [sorted([x for x in brca_df[col].unique() if pd.notna(x) and x != "Unknown"])];
    [Series.unique()] keeps a missing cell among the distinct values. *)
Definition options (col : Row → option string) (brca_df : DataFrame) : list string :=
  sorted (filter (λ x, x ≠ "Unknown") (dropna (unique (col <$> brca_df)))).

Definition race_opts (brca_df : DataFrame) : list string := options race brca_df.
Definition ethnicity_opts (brca_df : DataFrame) : list string := options ethnicity brca_df.
Definition gender_opts (brca_df : DataFrame) : list string := options gender brca_df.

(** The [default=] arguments of the three multiselects. *)
Definition default_races (brca_df : DataFrame) : list string :=
  let race_opts := race_opts brca_df in
  if 0 <? length race_opts then take 3 race_opts else [].

Definition default_ethnicities (brca_df : DataFrame) : list string :=
  let ethnicity_opts := ethnicity_opts brca_df in
  if 0 <? length ethnicity_opts then take 2 ethnicity_opts else [].

Definition default_genders (brca_df : DataFrame) : list string :=
  let gender_opts := gender_opts brca_df in
  if 0 <? length gender_opts then gender_opts else [].

(** What the widgets hold on the first run, before the user touches
    them: the defaults of the multiselects, the first option of each
    selectbox. *)
Definition default_widgets (brca_df : DataFrame) : Widgets :=
  {| selected_races := default_races brca_df;
     selected_ethnicities := default_ethnicities brca_df;
     age_group_picked := 0;
     selected_genders := default_genders brca_df;
     selected_site_picked := 0 |}.

(** ** Row-level reading of the filter steps *)

(** The mask a selection puts on a row: none when the selection is
    empty. *)
Definition isin_mask (col : Row → option string) (selected : list string) (r : Row) : bool :=
  negb (truthy selected) || Cell.isin selected (col r).

(** The mask an age group puts on a row. *)
Definition age_mask (age_group : string) (r : Row) : bool :=
  if contains "Young" age_group then Cell.le 45 (age r)
  else if contains "Adult" age_group then Cell.gt 45 (age r) && Cell.le 65 (age r)
  else if contains "Senior" age_group then Cell.gt 65 (age r)
  else true.

(** All four masks at once. *)
Definition passes (selected_races selected_ethnicities selected_genders : list string)
    (age_group : string) (r : Row) : bool :=
  isin_mask race selected_races r && isin_mask ethnicity selected_ethnicities r
  && isin_mask gender selected_genders r && age_mask age_group r.

(** The frame the page filters out of the loaded data for given widget
    values (lines 48-78). *)
Definition filtered_of (brca_df : DataFrame) (w : Widgets) : DataFrame :=
  apply_filters brca_df (selected_races w) (selected_ethnicities w)
    (selected_genders w) (selectbox age_group_options (age_group_picked w)).

(** Sum of the counts of a table. *)
Definition total {K} (table : list (K * nat)) : nat := sum_list (snd <$> table).

(** Case analysis on membership in a rendered list. *)
Ltac elem_cases H :=
  repeat match type of H with
  | _ ∈ app _ _ => apply elem_of_app in H as [H|H]
  | _ ∈ _ :: _ => apply elem_of_cons in H as [H|H]
  | _ ∈ [] => by apply elem_of_nil in H
  | _ ∈ (if ?b then _ else _) => destruct b
  end.

(** * Properties *)

(** ** Filter engine *)

Lemma select_cons mask r df :
  select mask (r :: df) = if mask r then r :: select mask df else select mask df.
Proof.
  unfold select. rewrite filter_cons.
  destruct (mask r); simpl; done.
Qed.

Lemma select_sublist mask df : select mask df `sublist_of` df.
Proof. apply sublist_filter. Qed.

Lemma elem_of_select mask df r : r ∈ select mask df ↔ mask r = true ∧ r ∈ df.
Proof.
  unfold select. rewrite list_elem_of_filter.
  by rewrite Is_true_true.
Qed.

Lemma filter_isin_sublist col selected df : filter_isin col selected df `sublist_of` df.
Proof.
  unfold filter_isin. destruct (truthy selected); [apply select_sublist | done].
Qed.

Lemma filter_age_sublist age_group df : filter_age age_group df `sublist_of` df.
Proof.
  unfold filter_age.
  repeat (case_match; [apply select_sublist |]). done.
Qed.

Lemma filter_isin_closed col selected df r :
  selected ≠ [] → r ∈ filter_isin col selected df →
  ∃ v, col r = Some v ∧ v ∈ selected.
Proof.
  intros Hne Hr. unfold filter_isin in Hr.
  destruct selected as [|s selected]; [done|]. simpl in Hr.
  apply elem_of_select in Hr as [Hin _].
  unfold Cell.isin in Hin. destruct (col r) as [v|]; [|done].
  exists v. split; [done|]. by apply bool_decide_eq_true in Hin.
Qed.

Lemma elem_of_sublist_of (l1 l2 : DataFrame) r : l1 `sublist_of` l2 → r ∈ l1 → r ∈ l2.
Proof. intros Hsub Hr. by eapply elem_of_sublist. Qed.

(** C3: an empty selection for race, ethnicity or gender applies no mask:
    the step returns its input unchanged, whatever the attribute holds
    (a value, "Unknown" or a missing cell), and the pipeline is the
    composition of the other steps. *)
Theorem empty_selection_is_no_restriction :
  (∀ col df, filter_isin col [] df = df) ∧
  (∀ df se sg ag,
     apply_filters df [] se sg ag =
     filter_age ag (filter_isin gender sg (filter_isin ethnicity se df))) ∧
  (∀ df sr sg ag,
     apply_filters df sr [] sg ag =
     filter_age ag (filter_isin gender sg (filter_isin race sr df))) ∧
  (∀ df sr se ag,
     apply_filters df sr se [] ag =
     filter_age ag (filter_isin ethnicity se (filter_isin race sr df))) ∧
  (∀ df, apply_filters df [] [] [] "All Ages" = df).
Proof. repeat split. Qed.

(** *** Age brackets *)

Lemma Qlt_bool_negb_le c a : Cell.Qlt_bool c a = negb (Qle_bool a c).
Proof. unfold Cell.Qlt_bool, Qle_bool. apply Z.ltb_antisym. Qed.

Lemma Qlt_bool_iff c a : Cell.Qlt_bool c a = true ↔ (c < a)%Q.
Proof. unfold Cell.Qlt_bool, Qlt. apply Z.ltb_lt. Qed.

Lemma cell_le_iff c v : Cell.le c v = true ↔ ∃ a, v = Some a ∧ (a <= c)%Q.
Proof.
  destruct v as [a|]; simpl.
  - rewrite Qle_bool_iff. naive_solver.
  - naive_solver.
Qed.

Lemma cell_gt_iff c v : Cell.gt c v = true ↔ ∃ a, v = Some a ∧ (c < a)%Q.
Proof.
  destruct v as [a|]; simpl.
  - rewrite Qlt_bool_iff. naive_solver.
  - naive_solver.
Qed.

(** Of the three bracket masks exactly one holds of a present age. *)
Lemma bracket_masks_present (a : Q) :
  let y := Cell.le 45 (Some a) in
  let m := Cell.gt 45 (Some a) && Cell.le 65 (Some a) in
  let s := Cell.gt 65 (Some a) in
  (y = true ∧ m = false ∧ s = false) ∨
  (y = false ∧ m = true ∧ s = false) ∨
  (y = false ∧ m = false ∧ s = true).
Proof.
  simpl. rewrite !Qlt_bool_negb_le.
  destruct (Qle_bool a 45) eqn:E45, (Qle_bool a 65) eqn:E65; simpl; auto.
  exfalso. apply Qle_bool_iff in E45.
  assert (H : (a <= 65)%Q) by (eapply Qle_trans; [exact E45 | discriminate]).
  apply Qle_bool_iff in H. congruence.
Qed.

Lemma length_age_hist_cons r df :
  length (age_hist (r :: df)) =
  (if age r is Some _ then 1 else 0) + length (age_hist df).
Proof. unfold age_hist, dropna. simpl. by destruct (age r). Qed.

Lemma bracket_lengths df :
  length (filter_age "Young (0-45)" df) + length (filter_age "Adult (45-65)" df)
  + length (filter_age "Senior (65+)" df) = length (age_hist df).
Proof.
  change (length (select (λ r, Cell.le 45 (age r)) df)
          + length (select (λ r, Cell.gt 45 (age r) && Cell.le 65 (age r)) df)
          + length (select (λ r, Cell.gt 65 (age r)) df) = length (age_hist df)).
  induction df as [|r df IH]; [done|].
  rewrite !select_cons, length_age_hist_cons.
  destruct (age r) as [a|].
  - destruct (bracket_masks_present a) as [(-> & -> & ->)|[(-> & -> & ->)|(-> & -> & ->)]];
      simpl; lia.
  - simpl. lia.
Qed.

(** C5: the age selector offers the four brackets only; "All Ages"
    applies no mask, Young keeps age <= 45, Adult keeps 45 < age <= 65,
    Senior keeps age > 65, and a row whose age is missing passes none of
    the three; so every row with an age falls in exactly one of Young,
    Adult and Senior, and the three sizes add up to the number of rows
    with an age. *)
Theorem age_brackets_partition :
  (∀ picked, selectbox age_group_options picked ∈ age_group_options) ∧
  (∀ df, filter_age "All Ages" df = df) ∧
  (∀ df r, r ∈ filter_age "Young (0-45)" df ↔
           r ∈ df ∧ ∃ a, age r = Some a ∧ (a <= 45)%Q) ∧
  (∀ df r, r ∈ filter_age "Adult (45-65)" df ↔
           r ∈ df ∧ ∃ a, age r = Some a ∧ (45 < a)%Q ∧ (a <= 65)%Q) ∧
  (∀ df r, r ∈ filter_age "Senior (65+)" df ↔
           r ∈ df ∧ ∃ a, age r = Some a ∧ (65 < a)%Q) ∧
  (∀ df r, r ∈ df → age r ≠ None →
     let y := r ∈ filter_age "Young (0-45)" df in
     let m := r ∈ filter_age "Adult (45-65)" df in
     let s := r ∈ filter_age "Senior (65+)" df in
     (y ∧ ¬ m ∧ ¬ s) ∨ (¬ y ∧ m ∧ ¬ s) ∨ (¬ y ∧ ¬ m ∧ s)) ∧
  (∀ df, length (filter_age "Young (0-45)" df)
         + length (filter_age "Adult (45-65)" df)
         + length (filter_age "Senior (65+)" df) = length (age_hist df)).
Proof.
  split; [|split; [|split; [|split; [|split; [|split]]]]].
  - intros picked.
    do 4 (destruct picked as [|picked]; [vm_compute; repeat constructor|]).
    vm_compute; repeat constructor.
  - done.
  - intros df r.
    change (filter_age "Young (0-45)" df) with (select (λ r, Cell.le 45 (age r)) df).
    rewrite elem_of_select, cell_le_iff. naive_solver.
  - intros df r.
    change (filter_age "Adult (45-65)" df)
      with (select (λ r, Cell.gt 45 (age r) && Cell.le 65 (age r)) df).
    rewrite elem_of_select, andb_true_iff, cell_le_iff, cell_gt_iff. naive_solver.
  - intros df r.
    change (filter_age "Senior (65+)" df) with (select (λ r, Cell.gt 65 (age r)) df).
    rewrite elem_of_select, cell_gt_iff. naive_solver.
  - intros df r Hr Hage.
    change (filter_age "Young (0-45)" df) with (select (λ r, Cell.le 45 (age r)) df).
    change (filter_age "Adult (45-65)" df)
      with (select (λ r, Cell.gt 45 (age r) && Cell.le 65 (age r)) df).
    change (filter_age "Senior (65+)" df) with (select (λ r, Cell.gt 65 (age r)) df).
    cbv zeta. rewrite !elem_of_select.
    destruct (age r) as [a|]; [|done].
    destruct (bracket_masks_present a) as [(-> & -> & ->)|[(-> & -> & ->)|(-> & -> & ->)]];
      naive_solver.
  - apply bracket_lengths.
Qed.

Example age_brackets_partition_witness :
  let r := mkRow None None None (Some 50%Q) None None in
  let df := [r; mkRow None None None None None None] in
  r ∈ df ∧ age r ≠ None ∧
  (r ∉ filter_age "Young (0-45)" df) ∧ (r ∈ filter_age "Adult (45-65)" df)
  ∧ (r ∉ filter_age "Senior (65+)" df).
Proof.
  cbv zeta.
  split; [repeat constructor|]. split; [done|].
  destruct age_brackets_partition as (_ & _ & _ & _ & _ & Hone & _).
  set (r := mkRow None None None (Some 50%Q) None None).
  set (df := [r; mkRow None None None None None None]).
  destruct (Hone df r) as [(Hy & _ & _)|[H|(_ & Hm & _)]].
  - repeat constructor.
  - done.
  - exfalso. vm_compute in Hy. by inv Hy.
  - exact H.
  - exfalso. apply Hm. vm_compute. constructor.
Defined.

Lemma filter_age_young df r :
  r ∈ filter_age "Young (0-45)" df → ∃ a, age r = Some a ∧ (a <= 45)%Q.
Proof.
  change (filter_age "Young (0-45)" df) with (select (λ r, Cell.le 45 (age r)) df).
  rewrite elem_of_select, cell_le_iff. tauto.
Qed.

Lemma filter_age_adult df r :
  r ∈ filter_age "Adult (45-65)" df → ∃ a, age r = Some a ∧ (45 < a)%Q ∧ (a <= 65)%Q.
Proof.
  change (filter_age "Adult (45-65)" df)
    with (select (λ r, Cell.gt 45 (age r) && Cell.le 65 (age r)) df).
  rewrite elem_of_select, andb_true_iff, cell_le_iff, cell_gt_iff. naive_solver.
Qed.

Lemma filter_age_senior df r :
  r ∈ filter_age "Senior (65+)" df → ∃ a, age r = Some a ∧ (65 < a)%Q.
Proof.
  change (filter_age "Senior (65+)" df) with (select (λ r, Cell.gt 65 (age r)) df).
  rewrite elem_of_select, cell_gt_iff. tauto.
Qed.

(** C4: the filtered frame is a subsequence of the input, in row order,
    and each of its rows satisfies every active criterion: for every
    non-empty selection it holds a value of that selection, and under an
    age group other than "All Ages" it has an age within the group (at
    most 45 under Young, above 45 and at most 65 under Adult, above 65
    under Senior). *)
Theorem filtered_is_closed_subsequence df sr se sg ag :
  let filtered_df := apply_filters df sr se sg ag in
  filtered_df `sublist_of` df ∧
  (sr ≠ [] → ∀ r, r ∈ filtered_df → ∃ v, race r = Some v ∧ v ∈ sr) ∧
  (se ≠ [] → ∀ r, r ∈ filtered_df → ∃ v, ethnicity r = Some v ∧ v ∈ se) ∧
  (sg ≠ [] → ∀ r, r ∈ filtered_df → ∃ v, gender r = Some v ∧ v ∈ sg) ∧
  (ag = "Young (0-45)" →
     ∀ r, r ∈ filtered_df → ∃ a, age r = Some a ∧ (a <= 45)%Q) ∧
  (ag = "Adult (45-65)" →
     ∀ r, r ∈ filtered_df → ∃ a, age r = Some a ∧ (45 < a)%Q ∧ (a <= 65)%Q) ∧
  (ag = "Senior (65+)" →
     ∀ r, r ∈ filtered_df → ∃ a, age r = Some a ∧ (65 < a)%Q).
Proof.
  cbv zeta. unfold apply_filters.
  set (d1 := filter_isin race sr df).
  set (d2 := filter_isin ethnicity se d1).
  set (d3 := filter_isin gender sg d2).
  assert (H3 : filter_age ag d3 `sublist_of` d3) by apply filter_age_sublist.
  assert (H2 : d3 `sublist_of` d2) by apply filter_isin_sublist.
  assert (H1 : d2 `sublist_of` d1) by apply filter_isin_sublist.
  assert (H0 : d1 `sublist_of` df) by apply filter_isin_sublist.
  split; [by repeat (etrans; [eassumption|]) |].
  split_and!.
  - intros Hne r Hr. apply (filter_isin_closed race sr df); [done|].
    eauto using elem_of_sublist_of.
  - intros Hne r Hr. apply (filter_isin_closed ethnicity se d1); [done|].
    eauto using elem_of_sublist_of.
  - intros Hne r Hr. apply (filter_isin_closed gender sg d2); [done|].
    eauto using elem_of_sublist_of.
  - intros -> r Hr. by eapply filter_age_young.
  - intros -> r Hr. by eapply filter_age_adult.
  - intros -> r Hr. by eapply filter_age_senior.
Qed.

Example filtered_is_closed_subsequence_witness :
  let r := mkRow (Some "White") None None (Some 50%Q) None None in
  let df := [mkRow (Some "Black") None None (Some 50%Q) None None;
             mkRow (Some "White") None None (Some 30%Q) None None;
             mkRow (Some "White") None None None None None;
             r] in
  ["White"] ≠ [] ∧
  apply_filters df ["White"] [] [] "Adult (45-65)" = [r] ∧
  (∃ v, race r = Some v ∧ v ∈ ["White"]) ∧
  (∃ a, age r = Some a ∧ (45 < a)%Q ∧ (a <= 65)%Q).
Proof.
  cbv zeta. split; [done|]. split; [reflexivity|].
  set (r := mkRow (Some "White") None None (Some 50%Q) None None).
  set (df := [mkRow (Some "Black") None None (Some 50%Q) None None;
              mkRow (Some "White") None None (Some 30%Q) None None;
              mkRow (Some "White") None None None None None;
              r]).
  destruct (filtered_is_closed_subsequence df ["White"] [] [] "Adult (45-65)")
    as (_ & Hrace & _ & _ & _ & Hadult & _).
  assert (Hr : r ∈ apply_filters df ["White"] [] [] "Adult (45-65)").
  { apply list_elem_of_In. vm_compute. by left. }
  split; [by apply Hrace | by apply Hadult].
Defined.

(** ** Ranking and counting *)

Section StronglySortedFacts.
Context {A : Type}.
Implicit Types (R : relation A) (l : list A).

Lemma StronglySorted_on R R' l :
  (∀ a b, a ∈ l → b ∈ l → R a b → R' a b) →
  StronglySorted R l → StronglySorted R' l.
Proof.
  intros Himp Hs. induction Hs as [|a l Hs IH Hall]; constructor.
  - apply IH. intros x y Hx Hy. apply Himp; by constructor.
  - rewrite Forall_forall in Hall |- *. intros b Hb.
    apply Himp; [constructor | by constructor | by apply Hall].
Qed.

Lemma StronglySorted_sublist R l1 l2 :
  l1 `sublist_of` l2 → StronglySorted R l2 → StronglySorted R l1.
Proof.
  intros Hsub Hs. revert l1 Hsub.
  induction Hs as [|a l2 Hs IH Hall]; intros l1 Hsub.
  - apply sublist_nil_r in Hsub as ->. constructor.
  - inv Hsub; [|by apply IH].
    constructor; [by apply IH|].
    rewrite Forall_forall in Hall |- *. intros b Hb.
    apply Hall. by eapply elem_of_sublist.
Qed.
End StronglySortedFacts.

Section SortValuesFacts.
Context {A : Type} (cnt : A → nat).

Lemma elem_of_insert_desc x y l : y ∈ insert_desc cnt x l ↔ y = x ∨ y ∈ l.
Proof.
  induction l as [|z l IH]; simpl.
  - rewrite list_elem_of_singleton, elem_of_nil. tauto.
  - destruct (cnt z <=? cnt x).
    + by rewrite elem_of_cons.
    + rewrite !elem_of_cons, IH. tauto.
Qed.

Lemma elem_of_sort_values_desc y l : y ∈ sort_values_desc cnt l ↔ y ∈ l.
Proof.
  induction l as [|z l IH]; simpl; [done|].
  by rewrite elem_of_insert_desc, IH, elem_of_cons.
Qed.

Lemma length_insert_desc x l : length (insert_desc cnt x l) = S (length l).
Proof.
  induction l as [|z l IH]; simpl; [done|].
  destruct (cnt z <=? cnt x); simpl; by rewrite ?IH.
Qed.

Lemma length_sort_values_desc l : length (sort_values_desc cnt l) = length l.
Proof.
  induction l as [|z l IH]; simpl; [done|].
  by rewrite length_insert_desc, IH.
Qed.

Variable before : relation A.

(** Inserting a row that stood before all the others keeps the
    ranking, ties included. *)
Lemma insert_desc_ranked x l :
  Forall (before x) l →
  StronglySorted (by_count_then cnt before) l →
  StronglySorted (by_count_then cnt before) (insert_desc cnt x l).
Proof.
  intros Hbefore Hs. induction Hs as [|y ys Hs IH Hall]; simpl.
  - repeat constructor.
  - apply Forall_cons in Hbefore as [Hxy Hbefore].
    destruct (Nat.leb_spec (cnt y) (cnt x)) as [Hle|Hlt].
    + constructor; [by constructor|].
      rewrite Forall_forall in Hall, Hbefore.
      apply Forall_cons. split.
      * unfold by_count_then. destruct (decide (cnt y = cnt x)); [right|left]; auto with lia.
      * apply Forall_forall. intros z Hz.
        specialize (Hall z Hz). specialize (Hbefore z Hz).
        unfold by_count_then in *.
        destruct (decide (cnt z = cnt x)); [right|left]; [auto|lia].
    + constructor; [by apply IH|].
      rewrite Forall_forall in Hall |- *. intros z Hz.
      apply elem_of_insert_desc in Hz as [->|Hz]; [by left | by apply Hall].
Qed.

(** The sort is stable: a table whose rows stand in the order [before]
    comes out ranked by decreasing count, rows of equal count still in
    the order [before]. *)
Lemma sort_values_desc_ranked l :
  StronglySorted before l →
  StronglySorted (by_count_then cnt before) (sort_values_desc cnt l).
Proof.
  induction 1 as [|x l Hs IH Hall]; simpl; [constructor|].
  apply insert_desc_ranked; [|done].
  rewrite Forall_forall in Hall |- *. intros z Hz.
  apply Hall. by apply elem_of_sort_values_desc.
Qed.
End SortValuesFacts.

Section UniqueFacts.
Context `{EqDecision A}.
Implicit Types (l : list A).

Lemma elem_of_unique x l : x ∈ unique l ↔ x ∈ l.
Proof.
  induction l as [|y l IH]; simpl; [done|].
  rewrite !elem_of_cons, list_elem_of_filter, IH.
  destruct (decide (x = y)); naive_solver.
Qed.

Lemma NoDup_unique l : NoDup (unique l).
Proof.
  induction l as [|y l IH]; simpl; constructor.
  - rewrite list_elem_of_filter. naive_solver.
  - by apply NoDup_filter.
Qed.

Lemma occurrences_pos x l : x ∈ l → 0 < occurrences x l.
Proof.
  intros Hx. unfold occurrences.
  assert (Hin : x ∈ filter (λ y, y = x) l) by by apply list_elem_of_filter.
  destruct (filter _ l); [by apply elem_of_nil in Hin | simpl; lia].
Qed.

(** [unique] lists the values in the order they are first seen. *)
Lemma unique_first_seen l :
  StronglySorted (λ a b, first_seen a l < first_seen b l) (unique l).
Proof.
  induction l as [|x l IH]; simpl; constructor.
  - eapply StronglySorted_on;
      [|eapply StronglySorted_sublist; [apply sublist_filter | exact IH]].
    intros a b Ha Hb Hab. apply list_elem_of_filter in Ha as [Ha _], Hb as [Hb _].
    simpl in *. repeat case_decide; try done. lia.
  - apply Forall_forall. intros b Hb. apply list_elem_of_filter in Hb as [Hb _].
    simpl. rewrite decide_True by done. case_decide; [done | lia].
Qed.
End UniqueFacts.

(** *** Order of the group keys *)

Lemma string_compare_refl s : String.compare s s = Eq.
Proof.
  induction s as [|c s IH]; simpl; [done|].
  unfold Ascii.compare. by rewrite N.compare_refl.
Qed.

Lemma string_compare_lt_trans s1 s2 s3 :
  String.compare s1 s2 = Lt → String.compare s2 s3 = Lt → String.compare s1 s3 = Lt.
Proof.
  revert s2 s3. induction s1 as [|c1 s1 IH]; intros [|c2 s2] [|c3 s3]; simpl; try done.
  destruct (Ascii.compare c1 c2) eqn:E12; [| |done];
    (destruct (Ascii.compare c2 c3) eqn:E23; [| |done]); intros H12 H23.
  - apply Ascii.compare_eq_iff in E12 as ->. rewrite E23. eauto.
  - apply Ascii.compare_eq_iff in E12 as ->. by rewrite E23.
  - apply Ascii.compare_eq_iff in E23 as <-. by rewrite E12.
  - unfold Ascii.compare in *. rewrite N.compare_lt_iff in E12, E23.
    assert (H13 : (Ascii.N_of_ascii c1 < Ascii.N_of_ascii c3)%N) by lia.
    apply N.compare_lt_iff in H13. by rewrite H13.
Qed.

Lemma string_compare_not_gt_trans s1 s2 s3 :
  String.compare s1 s2 ≠ Gt → String.compare s2 s3 ≠ Gt → String.compare s1 s3 ≠ Gt.
Proof.
  destruct (String.compare s1 s2) eqn:E12; [| |done];
    (destruct (String.compare s2 s3) eqn:E23; [| |done]); intros _ _.
  - apply String.compare_eq_iff in E12 as ->. by rewrite E23.
  - apply String.compare_eq_iff in E12 as ->. by rewrite E23.
  - apply String.compare_eq_iff in E23 as <-. by rewrite E12.
  - by rewrite (string_compare_lt_trans _ _ _ E12 E23).
Qed.

Lemma key_leb_trans k1 k2 k3 :
  key_leb k1 k2 = true → key_leb k2 k3 = true → key_leb k1 k3 = true.
Proof.
  destruct k1 as [a1 b1], k2 as [a2 b2], k3 as [a3 b3]. unfold key_leb, String.leb. simpl.
  destruct (String.compare a1 a2) eqn:E12; [| |done];
    (destruct (String.compare a2 a3) eqn:E23; [| |done]); intros H12 H23.
  - apply String.compare_eq_iff in E12 as ->. rewrite E23.
    pose proof (string_compare_not_gt_trans b1 b2 b3) as Hb.
    destruct (String.compare b1 b2), (String.compare b2 b3), (String.compare b1 b3);
      try done; exfalso; by apply Hb.
  - apply String.compare_eq_iff in E12 as ->. by rewrite E23.
  - apply String.compare_eq_iff in E23 as <-. by rewrite E12.
  - by rewrite (string_compare_lt_trans _ _ _ E12 E23).
Qed.

Lemma key_leb_total k1 k2 : key_leb k1 k2 = false → key_leb k2 k1 = true.
Proof.
  destruct k1 as [a1 b1], k2 as [a2 b2]. unfold key_leb, String.leb. simpl.
  rewrite (String.compare_antisym a2 a1), (String.compare_antisym b2 b1).
  destruct (String.compare a1 a2); simpl; try done.
  by destruct (String.compare b1 b2).
Qed.

Lemma key_leb_strict k1 k2 : key_leb k1 k2 = true → k1 ≠ k2 → key_lt k1 k2.
Proof.
  destruct k1 as [a1 b1], k2 as [a2 b2]. unfold key_leb, key_lt, String.leb. simpl.
  destruct (String.compare a1 a2) eqn:Ea; [|by left|done].
  apply String.compare_eq_iff in Ea as ->.
  destruct (String.compare b1 b2) eqn:Eb; [|by right|done].
  apply String.compare_eq_iff in Eb as ->. done.
Qed.

Lemma elem_of_insert_key k k' l : k' ∈ insert_key k l ↔ k' = k ∨ k' ∈ l.
Proof.
  induction l as [|z l IH]; simpl.
  - rewrite list_elem_of_singleton, elem_of_nil. tauto.
  - destruct (key_leb k z).
    + by rewrite elem_of_cons.
    + rewrite !elem_of_cons, IH. tauto.
Qed.

Lemma elem_of_sort_keys k l : k ∈ sort_keys l ↔ k ∈ l.
Proof.
  induction l as [|z l IH]; simpl; [done|].
  by rewrite elem_of_insert_key, IH, elem_of_cons.
Qed.

Lemma insert_key_sorted k l :
  k ∉ l →
  StronglySorted key_lt l → StronglySorted key_lt (insert_key k l).
Proof.
  intros Hk Hs. induction Hs as [|y ys Hs IH Hall]; simpl.
  - repeat constructor.
  - apply not_elem_of_cons in Hk as [Hky Hk].
    destruct (key_leb k y) eqn:Hle.
    + constructor; [by constructor|].
      apply Forall_cons. split; [by apply key_leb_strict|].
      rewrite Forall_forall in Hall |- *. intros z Hz.
      specialize (Hall z Hz).
      assert (Hyz : key_leb y z = true).
      { destruct y as [a b], z as [c d]. unfold key_lt, key_leb, String.leb in *. simpl in *.
        destruct Hall as [->|[-> ->]]; [done|]. by rewrite string_compare_refl. }
      apply key_leb_strict; [by eapply key_leb_trans|].
      intros ->. by apply Hk.
    + constructor; [by apply IH|].
      rewrite Forall_forall in Hall |- *. intros z Hz.
      apply elem_of_insert_key in Hz as [->|Hz]; [|by apply Hall].
      apply key_leb_strict; [by apply key_leb_total | done].
Qed.

(** Distinct keys come out of [sort_keys] in strictly ascending order. *)
Lemma sort_keys_sorted l : NoDup l → StronglySorted key_lt (sort_keys l).
Proof.
  induction 1 as [|k l Hk Hnd IH]; simpl; [constructor|].
  apply insert_key_sorted; [|done]. by rewrite elem_of_sort_keys.
Qed.

(** *** Columns with missing cells *)

Lemma elem_of_dropna {A} (x : A) (col : list (option A)) : x ∈ dropna col ↔ Some x ∈ col.
Proof.
  unfold dropna. rewrite list_elem_of_omap. split.
  - intros (o & Ho & Heq). simpl in Heq. by subst.
  - intros Hx. by exists (Some x).
Qed.

Lemma occurrences_cons `{EqDecision A} (x y : A) l :
  occurrences x (y :: l) = (if decide (y = x) then 1 else 0) + occurrences x l.
Proof. unfold occurrences. rewrite filter_cons. by case_decide. Qed.

Lemma occurrences_dropna (s : string) col :
  occurrences s (dropna col) = occurrences (Some s) col.
Proof.
  induction col as [|[x|] col IH]; [done| |].
  - change (dropna (Some x :: col)) with (x :: dropna col).
    rewrite !occurrences_cons, IH. repeat case_decide; congruence || done.
  - change (dropna (None :: col)) with (dropna col).
    rewrite occurrences_cons, IH. by case_decide.
Qed.

Lemma first_seen_dropna (s s' : string) col :
  first_seen s (dropna col) < first_seen s' (dropna col) →
  first_seen (Some s) col < first_seen (Some s') col.
Proof.
  induction col as [|[x|] col IH]; [done| |].
  - change (dropna (Some x :: col)) with (x :: dropna col). simpl.
    repeat case_decide; simplify_eq; try lia;
      intros; apply ->Nat.succ_lt_mono; apply IH; lia.
  - change (dropna (None :: col)) with (dropna col). simpl.
    intros. apply ->Nat.succ_lt_mono. by apply IH.
Qed.

Lemma StronglySorted_lookup {A} (R : relation A) l i j x y :
  StronglySorted R l → i < j → l !! i = Some x → l !! j = Some y → R x y.
Proof.
  intros Hs. revert i j. induction Hs as [|a l Hs IH Hall]; intros i j Hij Hi Hj; [done|].
  destruct j as [|j]; [lia|]. destruct i as [|i]; simpl in *.
  - simplify_eq. rewrite Forall_forall in Hall. apply Hall.
    by eapply list_elem_of_lookup_2.
  - eapply IH; [|done..]. lia.
Qed.

(** *** value_counts *)

Lemma elem_of_value_counts p col :
  p ∈ value_counts col ↔ Some p.1 ∈ col ∧ p.2 = occurrences (Some p.1) col.
Proof.
  unfold value_counts. rewrite elem_of_sort_values_desc, list_elem_of_fmap.
  setoid_rewrite elem_of_unique. setoid_rewrite elem_of_dropna.
  setoid_rewrite occurrences_dropna. destruct p as [s c]. simpl. split.
  - intros (s' & Heq & Hs'). by simplify_eq.
  - intros [Hs ->]. by exists s.
Qed.

(** The table of [value_counts] is ranked by decreasing count, values
    of equal count in the order they are first seen in the column. *)
Lemma value_counts_ranked col :
  StronglySorted
    (by_count_then snd (λ p q, first_seen (Some p.1) col < first_seen (Some q.1) col))
    (value_counts col).
Proof.
  unfold value_counts. apply sort_values_desc_ranked.
  eapply StronglySorted_fmap; [|apply unique_first_seen].
  intros s s' Hlt. simpl. by apply first_seen_dropna.
Qed.

Lemma ranked_lookup {A} (cnt : A → nat) (before : relation A) l i j p q :
  StronglySorted (by_count_then cnt before) l →
  i < j → l !! i = Some p → l !! j = Some q →
  cnt q ≤ cnt p ∧ (cnt p = cnt q → before p q).
Proof.
  intros Hs Hij Hi Hj.
  destruct (StronglySorted_lookup _ _ _ _ _ _ Hs Hij Hi Hj) as [Hlt|[Heq Hb]].
  - split; lia.
  - split; [lia|done].
Qed.

(** *** Site ranking *)

Lemma site_counts_sublist df :
  site_counts df `sublist_of` value_counts (site <$> df).
Proof.
  unfold site_counts. etrans; [apply sublist_take | apply sublist_filter].
Qed.

Lemma elem_of_site_counts p df :
  p ∈ site_counts df →
  p.1 ≠ "Unknown" ∧ Some p.1 ∈ site <$> df ∧ p.2 = occurrences (Some p.1) (site <$> df).
Proof.
  unfold site_counts. intros Hp.
  eapply elem_of_sublist in Hp; [|apply sublist_take].
  apply list_elem_of_filter in Hp as [Hne Hp].
  apply elem_of_value_counts in Hp. tauto.
Qed.

(** C6: the site ranking holds no "Unknown" site, has at most ten rows,
    each with the number of rows of its site, is ordered by
    non-increasing count, and two sites of equal count stand in the order
    in which they are first seen in the input. *)
Theorem site_counts_ranking (filtered_df : DataFrame) :
  let sites := site <$> filtered_df in
  let out := site_counts filtered_df in
  (∀ p, p ∈ out →
     p.1 ≠ "Unknown" ∧ Some p.1 ∈ sites ∧ p.2 = occurrences (Some p.1) sites) ∧
  length out ≤ 10 ∧
  (∀ i j p q, i < j → out !! i = Some p → out !! j = Some q →
     q.2 ≤ p.2 ∧
     (p.2 = q.2 → first_seen (Some p.1) sites < first_seen (Some q.1) sites)).
Proof.
  cbv zeta. split; [|split].
  - intros p. apply elem_of_site_counts.
  - unfold site_counts. rewrite length_take. lia.
  - intros i j p q.
    apply (ranked_lookup snd
             (λ p q, first_seen (Some p.1) (site <$> filtered_df)
                     < first_seen (Some q.1) (site <$> filtered_df))).
    eapply StronglySorted_sublist; [apply site_counts_sublist | apply value_counts_ranked].
Qed.

Example site_counts_ranking_witness :
  let at_site s := mkRow None None None None (Some s) None in
  let df := [at_site "Lung"; at_site "Unknown"; at_site "Breast"; at_site "Unknown"] in
  site_counts df = [("Lung", 1); ("Breast", 1)] ∧
  first_seen (Some "Lung") (site <$> df) < first_seen (Some "Breast") (site <$> df).
Proof.
  cbv zeta. split; [by vm_compute|].
  set (at_site s := mkRow None None None None (Some s) None).
  set (df := [at_site "Lung"; at_site "Unknown"; at_site "Breast"; at_site "Unknown"]).
  destruct (site_counts_ranking df) as (_ & _ & Hties).
  apply (Hties 0 1 ("Lung", 1) ("Breast", 1)); [lia | by vm_compute..].
Defined.

(** *** Race and ethnicity breakdown *)

Lemma elem_of_groupby_size p df :
  p ∈ groupby_size df ↔
  p.1 ∈ omap group_key df ∧ p.2 = occurrences p.1 (omap group_key df).
Proof.
  unfold groupby_size. rewrite list_elem_of_fmap.
  setoid_rewrite elem_of_sort_keys. setoid_rewrite elem_of_unique.
  destruct p as [k c]. simpl. split.
  - intros (k' & Heq & Hk'). by simplify_eq.
  - intros [Hk ->]. by exists k.
Qed.

(** The groups stand in strictly ascending key order. *)
Lemma groupby_size_sorted df :
  StronglySorted (λ p q, key_lt p.1 q.1) (groupby_size df).
Proof.
  unfold groupby_size.
  eapply StronglySorted_fmap; [|apply sort_keys_sorted, NoDup_unique]. done.
Qed.

Lemma demo_counts_sublist df :
  demo_counts df `sublist_of` sort_values_desc snd (groupby_size df).
Proof. apply sublist_take. Qed.

(** With the sort that keeps the order of the group table, ties are
    not broken by the order in which the keys are met: of two groups of
    one row each, the one met second comes out first. *)
Lemma demo_counts_ties_in_table_order :
  ¬ (∀ (filtered_df : DataFrame) i j p q,
       i < j →
       demo_counts filtered_df !! i = Some p →
       demo_counts filtered_df !! j = Some q →
       p.2 = q.2 →
       first_seen p.1 (omap group_key filtered_df)
       < first_seen q.1 (omap group_key filtered_df)).
Proof.
  intros Hclaim.
  specialize (Hclaim
    [mkRow (Some "White") (Some "Hispanic") None None None None;
     mkRow (Some "Black") (Some "Hispanic") None None None None]
    0 1 ("Black", "Hispanic", 1) ("White", "Hispanic", 1)).
  vm_compute in Hclaim.
  specialize (Hclaim (le_n 1) eq_refl eq_refl eq_refl).
  lia.
Qed.

(** On that input the breakdown differs from the one worded in the
    specification. *)
Example demo_counts_differs_from_encounter_order :
  let of_race s := mkRow (Some s) (Some "Hispanic") None None None None in
  let df := [of_race "White"; of_race "Black"] in
  demo_counts df = [("Black", "Hispanic", 1); ("White", "Hispanic", 1)] ∧
  demo_counts_encounter_order df = [("White", "Hispanic", 1); ("Black", "Hispanic", 1)].
Proof. by vm_compute. Qed.

(** ** Summary scalars *)

(** C1, the code at a row whose site is "Unknown": the Unique Sites
    scalar counts "Unknown" as a site, where the count over the rows
    whose site is not "Unknown" is zero; the Stages Represented scalar
    leaves "Unknown" out. *)
Theorem unique_sites_counts_unknown :
  let df := [mkRow None None None None (Some "Unknown") (Some "Unknown")] in
  unique_sites df = 1 ∧ unique_sites_excluding_unknown df = 0 ∧ unique_stages df = 0.
Proof. by vm_compute. Qed.

(** ** Stage breakdown *)

Lemma cell_eq_iff s v : Cell.eq s v = true ↔ v = Some s.
Proof.
  destruct v as [x|]; simpl; [|done].
  rewrite String.eqb_eq. split; congruence.
Qed.

Lemma is_empty_true {A} (l : list A) : is_empty l = true ↔ l = [].
Proof. by destruct l. Qed.

Lemma is_empty_false {A} (l : list A) : is_empty l = false ↔ l ≠ [].
Proof. by destruct l. Qed.

Lemma site_filtered_all df : site_filtered df "All" = df.
Proof. done. Qed.

Lemma site_filtered_exact df selected :
  selected ≠ "All" →
  site_filtered df selected = select (λ r, Cell.eq selected (site r)) df.
Proof.
  intros Hne. unfold site_filtered.
  apply String.eqb_neq in Hne. by rewrite Hne.
Qed.

Lemma elem_of_stage_counts p d :
  p ∈ stage_counts d ↔
  p.1 ≠ "Unknown" ∧ Some p.1 ∈ stage <$> d ∧ p.2 = occurrences (Some p.1) (stage <$> d).
Proof.
  unfold stage_counts. by rewrite list_elem_of_filter, elem_of_value_counts.
Qed.

(** The stage table is empty exactly when no row has a stage other than
    "Unknown". *)
Lemma stage_counts_nil d :
  stage_counts d = [] ↔ ∀ r, r ∈ d → stage r = None ∨ stage r = Some "Unknown".
Proof.
  split.
  - intros Hnil r Hr. destruct (stage r) as [s|] eqn:Hs; [|by left].
    destruct (decide (s = "Unknown")) as [->|Hne]; [by right|].
    assert (Hin : (s, occurrences (Some s) (stage <$> d)) ∈ stage_counts d).
    { apply elem_of_stage_counts. simpl. split_and!; [done| |done].
      rewrite <-Hs. by apply list_elem_of_fmap_2. }
    rewrite Hnil in Hin. by apply elem_of_nil in Hin.
  - intros Hall. destruct (stage_counts d) as [|p l] eqn:Hsc; [done|].
    assert (Hin : p ∈ stage_counts d) by (rewrite Hsc; constructor).
    apply elem_of_stage_counts in Hin as (Hne & Hin & _).
    apply list_elem_of_fmap in Hin as (r & Hs & Hr).
    destruct (Hall r Hr) as [Hst|Hst]; rewrite Hst in Hs; congruence.
Qed.

(** C8: the stage breakdown takes all rows when the selection is "All"
    and the rows of exactly the selected site otherwise; its table has a
    row for each stage other than "Unknown" met in those rows, with the
    number of its rows; when those rows are none, or all have the stage
    "Unknown", the table is empty and the view is its caption and an
    informational note, never an error. *)
Theorem stage_breakdown_of_selection (filtered_df : DataFrame) (selected : string) :
  let restricted := site_filtered filtered_df selected in
  (selected = "All" → restricted = filtered_df) ∧
  (selected ≠ "All" →
     restricted `sublist_of` filtered_df ∧
     ∀ r, r ∈ restricted ↔ r ∈ filtered_df ∧ site r = Some selected) ∧
  (∀ p, p ∈ stage_counts restricted ↔
     p.1 ≠ "Unknown" ∧ Some p.1 ∈ stage <$> restricted
     ∧ p.2 = occurrences (Some p.1) (stage <$> restricted)) ∧
  (restricted = [] ∨ (∀ r, r ∈ restricted → stage r = Some "Unknown") →
     stage_counts restricted = [] ∧
     ∃ msg, stage_view filtered_df selected =
            [st_write "**Stage Distribution for Selected Site**"; st_info msg]) ∧
  (∀ e msg, e ∈ stage_view filtered_df selected → e ≠ st_error msg).
Proof.
  cbv zeta. split_and!.
  - by intros ->.
  - intros Hne. rewrite site_filtered_exact by done. split; [apply select_sublist|].
    intros r. rewrite elem_of_select, cell_eq_iff. tauto.
  - intros p. apply elem_of_stage_counts.
  - intros Hcase.
    assert (Hnil : stage_counts (site_filtered filtered_df selected) = []).
    { apply stage_counts_nil. destruct Hcase as [->|Hall].
      - intros r Hr. by apply elem_of_nil in Hr.
      - intros r Hr. right. by apply Hall. }
    split; [done|]. unfold stage_view. rewrite Hnil. simpl.
    destruct (is_empty (site_filtered filtered_df selected)); simpl; eauto.
  - intros e msg He ->. unfold stage_view in He.
    apply elem_of_cons in He as [He|He]; [done|].
    repeat case_match; apply list_elem_of_singleton in He; done.
Qed.

Example stage_breakdown_of_selection_witness :
  let df := [mkRow None None None None (Some "Lung") (Some "Unknown");
             mkRow None None None None (Some "Breast") (Some "II")] in
  "Lung" ≠ "All" ∧
  site_filtered df "Lung" = [mkRow None None None None (Some "Lung") (Some "Unknown")] ∧
  stage_counts (site_filtered df "Lung") = [] ∧
  stage_view df "Lung" =
    [st_write "**Stage Distribution for Selected Site**";
     st_info "No stage data available for selected site."].
Proof.
  cbv zeta. split; [done|]. split; [by vm_compute|].
  set (df := [mkRow None None None None (Some "Lung") (Some "Unknown");
              mkRow None None None None (Some "Breast") (Some "II")]).
  destruct (stage_breakdown_of_selection df "Lung") as (_ & _ & _ & Hempty & _).
  destruct Hempty as [Hnil _].
  - right. intros r Hr. vm_compute in Hr.
    apply list_elem_of_singleton in Hr as ->. done.
  - split; [exact Hnil | by vm_compute].
Defined.

(** ** The page *)

(** C7: when no row passes the filters the page renders its header,
    the sidebar caption and the guidance message, and nothing else: no
    error element and no element of any aggregation. *)
Theorem empty_filtered_result_is_signalled (brca_df : DataFrame) (w : Widgets) :
  apply_filters brca_df (selected_races w) (selected_ethnicities w)
    (selected_genders w) (selectbox age_group_options (age_group_picked w)) = [] →
  page_sites_demographics (Some brca_df) w =
    [st_header "Sites & Demographics Map View";
     st_sidebar_subheader "Filters";
     st_warning "No data matches current filters. Please adjust your selection."] ∧
  ∀ e, e ∈ page_sites_demographics (Some brca_df) w →
       is_aggregate e = false ∧ in_stage_view e = false ∧ ∀ msg, e ≠ st_error msg.
Proof.
  intros Hempty.
  assert (Hpage : page_sites_demographics (Some brca_df) w =
    [st_header "Sites & Demographics Map View";
     st_sidebar_subheader "Filters";
     st_warning "No data matches current filters. Please adjust your selection."]).
  { unfold page_sites_demographics. cbv zeta. by rewrite Hempty. }
  split; [done|]. rewrite Hpage. intros e He.
  elem_cases He; by subst.
Qed.

Example empty_filtered_result_is_signalled_witness :
  let brca_df :=
    [mkRow (Some "White") (Some "Hispanic") None (Some 40%Q) (Some "Breast") (Some "I");
     mkRow (Some "White") (Some "Non-Hispanic") None (Some 70%Q) (Some "Breast") (Some "II");
     mkRow (Some "Black") (Some "Unknown") None (Some 50%Q) (Some "Lung") (Some "Unknown")] in
  let w := mkWidgets ["Asian"] [] 0 [] 0 in
  page_sites_demographics (Some brca_df) w =
    [st_header "Sites & Demographics Map View";
     st_sidebar_subheader "Filters";
     st_warning "No data matches current filters. Please adjust your selection."].
Proof.
  cbv zeta. apply empty_filtered_result_is_signalled. by vm_compute.
Defined.

(** *** Site selection *)

Lemma stage_view_outside df selected :
  filter (λ e, negb (in_stage_view e)) (stage_view df selected) =
  [st_write "**Stage Distribution for Selected Site**"].
Proof. unfold stage_view. by repeat case_match. Qed.

Lemma views_outside_stage_view df p1 p2 :
  filter (λ e, negb (in_stage_view e)) (views df p1) =
  filter (λ e, negb (in_stage_view e)) (views df p2).
Proof.
  unfold views. rewrite !filter_app, !stage_view_outside. done.
Qed.

(** C9: the pick in the site selector reaches the stage view only.
    Two runs on the same data and the same filter values that differ in
    that pick render the same elements outside the stage view: the same
    race and ethnicity chart, age chart, site chart and summary scalars,
    in the same order. *)
Theorem site_pick_reaches_stage_view_only (loaded : option DataFrame) (w : Widgets)
    (p1 p2 : nat) :
  let run1 := page_sites_demographics loaded (with_site_picked w p1) in
  let run2 := page_sites_demographics loaded (with_site_picked w p2) in
  filter (λ e, negb (in_stage_view e)) run1 = filter (λ e, negb (in_stage_view e)) run2 ∧
  ∀ e, in_stage_view e = false → e ∈ run1 ↔ e ∈ run2.
Proof.
  cbv zeta.
  assert (Heq : filter (λ e, negb (in_stage_view e))
                  (page_sites_demographics loaded (with_site_picked w p1)) =
                filter (λ e, negb (in_stage_view e))
                  (page_sites_demographics loaded (with_site_picked w p2))).
  { unfold page_sites_demographics. destruct loaded as [brca_df|]; [|done].
    cbn [with_site_picked selected_races selected_ethnicities selected_genders
         age_group_picked selected_site_picked].
    rewrite !filter_app. do 2 f_equal.
    case_match; [done|]. apply views_outside_stage_view. }
  split; [done|]. intros e He.
  assert (Hkeep : ∀ l : list Element,
            e ∈ l ↔ e ∈ filter (λ e, negb (in_stage_view e)) l).
  { intros l. rewrite list_elem_of_filter, He. simpl. tauto. }
  by rewrite (Hkeep (page_sites_demographics _ (with_site_picked w p1))),
             (Hkeep (page_sites_demographics _ (with_site_picked w p2))), Heq.
Qed.

Example site_pick_reaches_stage_view_only_witness :
  let brca_df :=
    [mkRow (Some "White") (Some "Hispanic") None (Some 40%Q) (Some "Breast") (Some "I");
     mkRow (Some "Black") (Some "Unknown") None (Some 50%Q) (Some "Lung") (Some "Unknown")] in
  let w := mkWidgets [] [] 0 [] 0 in
  let e := site_chart [("Breast", 1); ("Lung", 1)] in
  in_stage_view e = false ∧
  e ∈ page_sites_demographics (Some brca_df) (with_site_picked w 2).
Proof.
  cbv zeta. split; [reflexivity|].
  set (brca_df :=
    [mkRow (Some "White") (Some "Hispanic") None (Some 40%Q) (Some "Breast") (Some "I");
     mkRow (Some "Black") (Some "Unknown") None (Some 50%Q) (Some "Lung") (Some "Unknown")]).
  set (w := mkWidgets [] [] 0 [] 0).
  set (e := site_chart [("Breast", 1); ("Lung", 1)]).
  destruct (site_pick_reaches_stage_view_only (Some brca_df) w 0 2) as [_ Hsame].
  apply (Hsame e eq_refl).
  apply list_elem_of_In. vm_compute. do 11 right. by left.
Defined.

Lemma selectbox_in_options options picked :
  options ≠ [] → selectbox options picked ∈ options.
Proof.
  intros Hne. unfold selectbox.
  destruct (options !! picked) as [s|] eqn:Hs; simpl.
  - by eapply list_elem_of_lookup_2.
  - destruct options; [done|]. simpl. constructor.
Qed.

Lemma site_option_has_rows df choice :
  df ≠ [] → choice ∈ site_options df → site_filtered df choice ≠ [].
Proof.
  intros Hdf Hchoice. unfold site_filtered.
  destruct (String.eqb_spec choice "All") as [->|Hne]; simpl; [done|].
  apply elem_of_cons in Hchoice as [?|Hchoice]; [done|].
  apply elem_of_unique, list_elem_of_fmap in Hchoice as (p & -> & Hp).
  apply elem_of_site_counts in Hp as (_ & Hin & _).
  apply list_elem_of_fmap in Hin as (r & Hsite & Hr).
  assert (Hsel : r ∈ select (λ r, Cell.eq p.1 (site r)) df).
  { apply elem_of_select. split; [|done]. by apply cell_eq_iff. }
  intros Hnil. rewrite Hnil in Hsel. by apply elem_of_nil in Hsel.
Qed.

Lemma stage_view_no_data df selected :
  st_info "No data for selected site." ∈ stage_view df selected →
  site_filtered df selected = [].
Proof.
  unfold stage_view. intros He.
  destruct (site_filtered df selected) as [|r d]; [done|]. exfalso.
  simpl in He. elem_cases He; done.
Qed.

(** C10: the site selector returns one of the choices it offers; when
    the filtered frame is not empty, each of these choices ("All" and the
    sites of the ranking) leaves at least one row after the restriction
    to the site; and no run of the page renders the note "No data for
    selected site.". *)
Theorem no_data_for_site_unreachable :
  (∀ filtered_df picked,
     selected_site filtered_df picked ∈ site_options filtered_df) ∧
  (∀ filtered_df choice,
     filtered_df ≠ [] → choice ∈ site_options filtered_df →
     site_filtered filtered_df choice ≠ []) ∧
  (∀ loaded w,
     st_info "No data for selected site." ∉ page_sites_demographics loaded w).
Proof.
  assert (Hsel : ∀ filtered_df picked,
            selected_site filtered_df picked ∈ site_options filtered_df).
  { intros. by apply selectbox_in_options. }
  split_and!; [done | apply site_option_has_rows |].
  intros loaded w He. unfold page_sites_demographics in He.
  destruct loaded as [brca_df|]; [|elem_cases He; done]. cbv zeta in He.
  set (filtered_df := apply_filters _ _ _ _ _) in He.
  destruct (is_empty filtered_df) eqn:Hempty; [elem_cases He; done|].
  apply is_empty_false in Hempty.
  unfold views in He. elem_cases He; try done.
  apply stage_view_no_data in He.
  by eapply site_option_has_rows.
Qed.

Example no_data_for_site_unreachable_witness :
  let df := [mkRow None None None None (Some "Lung") (Some "Unknown");
             mkRow None None None None (Some "Breast") (Some "II")] in
  df ≠ [] ∧ "Breast" ∈ site_options df ∧ site_filtered df "Breast" ≠ [].
Proof.
  cbv zeta. split; [done|]. split; [vm_compute; repeat constructor|].
  apply no_data_for_site_unreachable; [done|]. vm_compute. repeat constructor.
Defined.

(** * Further properties *)

(** ** Filter engine: composition *)

Lemma select_select m1 m2 df :
  select m2 (select m1 df) = select (λ r, m1 r && m2 r) df.
Proof.
  induction df as [|r df IH]; [done|].
  rewrite !select_cons. destruct (m1 r) eqn:E1; simpl.
  - rewrite select_cons. destruct (m2 r); by rewrite IH.
  - done.
Qed.

Lemma select_ext m1 m2 df : (∀ r, r ∈ df → m1 r = m2 r) → select m1 df = select m2 df.
Proof.
  induction df as [|r df IH]; intros Hext; [done|].
  rewrite !select_cons, (Hext r) by constructor.
  rewrite IH; [done|]. intros r' Hr'. apply Hext. by constructor.
Qed.

Lemma select_all df : select (λ _, true) df = df.
Proof. induction df as [|r df IH]; [done|]. by rewrite select_cons, IH. Qed.

Lemma select_app m d1 d2 : select m (d1 ++ d2)%list = (select m d1 ++ select m d2)%list.
Proof. apply filter_app. Qed.

Lemma filter_isin_select col selected df :
  filter_isin col selected df = select (isin_mask col selected) df.
Proof.
  unfold filter_isin, isin_mask. destruct (truthy selected); simpl; [done|].
  by rewrite select_all.
Qed.

Lemma filter_age_select age_group df :
  filter_age age_group df = select (age_mask age_group) df.
Proof.
  unfold filter_age, age_mask. repeat case_match; try done. by rewrite select_all.
Qed.

Lemma apply_filters_select df sr se sg ag :
  apply_filters df sr se sg ag = select (passes sr se sg ag) df.
Proof.
  unfold apply_filters. cbv zeta.
  rewrite !filter_isin_select, filter_age_select, !select_select.
  apply select_ext. intros r _. unfold passes. by rewrite !andb_assoc.
Qed.

Lemma elem_of_apply_filters df sr se sg ag r :
  r ∈ apply_filters df sr se sg ag ↔
  r ∈ df ∧ isin_mask race sr r = true ∧ isin_mask ethnicity se r = true
  ∧ isin_mask gender sg r = true ∧ age_mask ag r = true.
Proof.
  rewrite apply_filters_select, elem_of_select. unfold passes.
  rewrite !andb_true_iff. tauto.
Qed.

Lemma apply_filters_sublist df sr se sg ag : apply_filters df sr se sg ag `sublist_of` df.
Proof. rewrite apply_filters_select. apply select_sublist. Qed.

(** X1: the four filter steps act as one conjunction of row masks: a
    row is kept exactly when it is in the data and passes the race, the
    ethnicity, the gender and the age mask, and the kept rows are those
    rows in row order. *)
Theorem apply_filters_is_conjunction df sr se sg ag :
  apply_filters df sr se sg ag = select (passes sr se sg ag) df ∧
  ∀ r, r ∈ apply_filters df sr se sg ag ↔
       r ∈ df ∧ isin_mask race sr r = true ∧ isin_mask ethnicity se r = true
       ∧ isin_mask gender sg r = true ∧ age_mask ag r = true.
Proof.
  split; [apply apply_filters_select | intros r; apply elem_of_apply_filters].
Qed.

(** X2: the steps may be taken in any order: two selection steps
    commute, and the age step commutes with a selection step. *)
Theorem filter_steps_commute :
  (∀ c1 s1 c2 s2 df,
     filter_isin c1 s1 (filter_isin c2 s2 df) = filter_isin c2 s2 (filter_isin c1 s1 df)) ∧
  (∀ c s ag df,
     filter_age ag (filter_isin c s df) = filter_isin c s (filter_age ag df)).
Proof.
  split; intros.
  - rewrite !filter_isin_select, !select_select.
    apply select_ext. intros r _. apply andb_comm.
  - rewrite !filter_isin_select, !filter_age_select, !select_select.
    apply select_ext. intros r _. apply andb_comm.
Qed.

(** X3: filtering again with the same values changes nothing. *)
Theorem apply_filters_idempotent df sr se sg ag :
  apply_filters (apply_filters df sr se sg ag) sr se sg ag = apply_filters df sr se sg ag.
Proof.
  rewrite !apply_filters_select, select_select.
  apply select_ext. intros r _. by destruct (passes sr se sg ag r).
Qed.

(** X4: rows are judged one by one: the filter of two frames laid end
    to end is the two filtered frames laid end to end, so a row is kept
    or dropped whatever the other rows are. *)
Theorem apply_filters_app d1 d2 sr se sg ag :
  apply_filters (d1 ++ d2)%list sr se sg ag =
  (apply_filters d1 sr se sg ag ++ apply_filters d2 sr se sg ag)%list.
Proof. rewrite !apply_filters_select. apply select_app. Qed.

Lemma select_sublist_mono m1 m2 df :
  (∀ r, m1 r = true → m2 r = true) → select m1 df `sublist_of` select m2 df.
Proof.
  intros Himp. induction df as [|r df IH]; [done|].
  rewrite !select_cons. destruct (m1 r) eqn:E1.
  - rewrite (Himp r E1). by constructor.
  - destruct (m2 r); [by constructor | done].
Qed.

Lemma isin_mask_mono col s s' r :
  s ≠ [] → s ⊆ s' → isin_mask col s r = true → isin_mask col s' r = true.
Proof.
  intros Hne Hsub. unfold isin_mask.
  destruct s as [|x s]; [done|]. simpl.
  unfold Cell.isin. destruct (col r) as [v|]; [|by rewrite orb_false_r].
  rewrite bool_decide_eq_true. intros Hv.
  apply orb_true_iff. right. apply bool_decide_eq_true. by apply Hsub.
Qed.

(** X5: adding values to a non-empty race selection only adds rows, and
    clearing the selection gives the largest result: the frame filtered
    with a selection is a subsequence of the frame filtered with a wider
    one, and of the frame filtered with the empty one. *)
Theorem widening_race_selection_adds_rows df sr sr' se sg ag :
  (sr ≠ [] → sr ⊆ sr' →
     apply_filters df sr se sg ag `sublist_of` apply_filters df sr' se sg ag) ∧
  apply_filters df sr se sg ag `sublist_of` apply_filters df [] se sg ag.
Proof.
  rewrite !apply_filters_select. split.
  - intros Hne Hsub. apply select_sublist_mono. intros r. unfold passes.
    rewrite !andb_true_iff. intros (((Hr & He) & Hg) & Ha).
    split_and!; try done. by eapply isin_mask_mono.
  - apply select_sublist_mono. intros r. unfold passes.
    rewrite !andb_true_iff. intros (((Hr & He) & Hg) & Ha). done.
Qed.

Example widening_race_selection_adds_rows_witness :
  let df := [mkRow (Some "White") None None None None None;
             mkRow (Some "Black") None None None None None] in
  apply_filters df ["White"] [] [] "All Ages"
  `sublist_of` apply_filters df ["White"; "Black"] [] [] "All Ages".
Proof.
  cbv zeta.
  match goal with |- apply_filters ?df _ _ _ _ `sublist_of` _ =>
    destruct (widening_race_selection_adds_rows df ["White"] ["White"; "Black"]
                [] [] "All Ages") as [Hwider _]
  end.
  apply Hwider; [done|].
  intros x Hx. apply list_elem_of_singleton in Hx as ->. constructor.
Defined.

(** ** Sidebar options *)

Lemma elem_of_insert_string x y l : y ∈ insert_string x l ↔ y = x ∨ y ∈ l.
Proof.
  induction l as [|z l IH]; simpl.
  - rewrite list_elem_of_singleton, elem_of_nil. tauto.
  - destruct (String.leb x z).
    + by rewrite elem_of_cons.
    + rewrite !elem_of_cons, IH. tauto.
Qed.

Lemma elem_of_sorted x l : x ∈ sorted l ↔ x ∈ l.
Proof.
  induction l as [|z l IH]; simpl; [done|].
  by rewrite elem_of_insert_string, IH, elem_of_cons.
Qed.

Lemma string_leb_strict x y : String.leb x y = true → x ≠ y → String.compare x y = Lt.
Proof.
  unfold String.leb. destruct (String.compare x y) eqn:E; try done.
  apply String.compare_eq_iff in E. done.
Qed.

Lemma string_leb_false x y : String.leb x y = false → String.compare y x = Lt.
Proof.
  unfold String.leb. rewrite (String.compare_antisym y x).
  by destruct (String.compare x y).
Qed.

Lemma insert_string_sorted x l :
  x ∉ l →
  StronglySorted (λ a b, String.compare a b = Lt) l →
  StronglySorted (λ a b, String.compare a b = Lt) (insert_string x l).
Proof.
  intros Hx Hs. induction Hs as [|y ys Hs IH Hall]; simpl.
  - repeat constructor.
  - apply not_elem_of_cons in Hx as [Hxy Hx].
    destruct (String.leb x y) eqn:Hle.
    + assert (Hlt : String.compare x y = Lt) by by apply string_leb_strict.
      constructor; [by constructor|].
      apply Forall_cons. split; [done|].
      rewrite Forall_forall in Hall |- *. intros z Hz.
      eapply string_compare_lt_trans; [exact Hlt | by apply Hall].
    + constructor; [by apply IH|].
      rewrite Forall_forall in Hall |- *. intros z Hz.
      apply elem_of_insert_string in Hz as [->|Hz]; [|by apply Hall].
      by apply string_leb_false.
Qed.

Lemma sorted_ascending l :
  NoDup l → StronglySorted (λ a b, String.compare a b = Lt) (sorted l).
Proof.
  induction 1 as [|x l Hx Hnd IH]; simpl; [constructor|].
  apply insert_string_sorted; [|done]. by rewrite elem_of_sorted.
Qed.

Lemma NoDup_dropna {A} (col : list (option A)) : NoDup col → NoDup (dropna col).
Proof.
  induction 1 as [|[x|] col Hx Hnd IH]; [constructor| |done].
  change (dropna (Some x :: col)) with (x :: dropna col).
  constructor; [|done]. by rewrite elem_of_dropna.
Qed.

Lemma ascending_NoDup l :
  StronglySorted (λ a b, String.compare a b = Lt) l → NoDup l.
Proof.
  induction 1 as [|x l Hs IH Hall]; constructor; [|done].
  intros Hx. rewrite Forall_forall in Hall. specialize (Hall x Hx).
  by rewrite string_compare_refl in Hall.
Qed.

Lemma elem_of_options col df s :
  s ∈ options col df ↔ s ≠ "Unknown" ∧ ∃ r, r ∈ df ∧ col r = Some s.
Proof.
  unfold options.
  rewrite elem_of_sorted, list_elem_of_filter, elem_of_dropna, elem_of_unique,
    list_elem_of_fmap.
  naive_solver.
Qed.

(** X6: the options of a sidebar multiselect are the values of the
    column met in the data, the missing cell and "Unknown" left out, each
    listed once, in strictly ascending order. *)
Theorem options_are_the_known_values (col : Row → option string) (brca_df : DataFrame) :
  (∀ s, s ∈ options col brca_df ↔ s ≠ "Unknown" ∧ ∃ r, r ∈ brca_df ∧ col r = Some s) ∧
  StronglySorted (λ a b, String.compare a b = Lt) (options col brca_df) ∧
  NoDup (options col brca_df).
Proof.
  assert (Hs : StronglySorted (λ a b, String.compare a b = Lt) (options col brca_df)).
  { apply sorted_ascending, NoDup_filter, NoDup_dropna, NoDup_unique. }
  split_and!; [apply elem_of_options | done | by apply ascending_NoDup].
Qed.

Lemma default_races_take df : default_races df = take 3 (race_opts df).
Proof. unfold default_races. cbv zeta. by destruct (race_opts df). Qed.

Lemma default_ethnicities_take df : default_ethnicities df = take 2 (ethnicity_opts df).
Proof. unfold default_ethnicities. cbv zeta. by destruct (ethnicity_opts df). Qed.

Lemma default_genders_all df : default_genders df = gender_opts df.
Proof. unfold default_genders. cbv zeta. by destruct (gender_opts df). Qed.

(** X7: the length guards on the defaults change nothing: the default
    races are the first three race options, the default ethnicities the
    first two ethnicity options, the default genders all the gender
    options; so every default value is a known value met in the data. *)
Theorem defaults_are_leading_options (brca_df : DataFrame) :
  default_races brca_df = take 3 (race_opts brca_df) ∧
  default_ethnicities brca_df = take 2 (ethnicity_opts brca_df) ∧
  default_genders brca_df = gender_opts brca_df ∧
  (∀ s, s ∈ default_races brca_df →
        s ≠ "Unknown" ∧ ∃ r, r ∈ brca_df ∧ race r = Some s) ∧
  (∀ s, s ∈ default_ethnicities brca_df →
        s ≠ "Unknown" ∧ ∃ r, r ∈ brca_df ∧ ethnicity r = Some s) ∧
  (∀ s, s ∈ default_genders brca_df →
        s ≠ "Unknown" ∧ ∃ r, r ∈ brca_df ∧ gender r = Some s).
Proof.
  pose proof (default_races_take brca_df) as Hr.
  pose proof (default_ethnicities_take brca_df) as He.
  pose proof (default_genders_all brca_df) as Hg.
  split_and!; try done.
  - intros s Hs. rewrite Hr in Hs. apply elem_of_options.
    eapply elem_of_sublist; [exact Hs | apply sublist_take].
  - intros s Hs. rewrite He in Hs. apply elem_of_options.
    eapply elem_of_sublist; [exact Hs | apply sublist_take].
  - intros s Hs. rewrite Hg in Hs. by apply elem_of_options.
Qed.

Example defaults_are_leading_options_witness :
  let df := [mkRow (Some "White") None None None None None;
             mkRow (Some "Unknown") None None None None None;
             mkRow (Some "Asian") None None None None None] in
  default_races df = ["Asian"; "White"] ∧ "Asian" ≠ "Unknown" ∧
  ∃ r, r ∈ df ∧ race r = Some "Asian".
Proof.
  cbv zeta. split; [by vm_compute|].
  match goal with |- _ ∧ ∃ r, r ∈ ?df ∧ _ =>
    destruct (defaults_are_leading_options df) as (_ & _ & _ & Hraces & _)
  end.
  apply Hraces. vm_compute. constructor.
Defined.

Lemma isin_mask_true col selected r :
  isin_mask col selected r = true ↔
  selected = [] ∨ ∃ v, col r = Some v ∧ v ∈ selected.
Proof.
  unfold isin_mask, Cell.isin. destruct selected as [|x l]; simpl.
  - split; [by left | done].
  - destruct (col r) as [v|].
    + rewrite bool_decide_eq_true. naive_solver.
    + naive_solver.
Qed.

(** X8: the first run, with the widgets at their defaults, does not
    show all the data.  A row is kept exactly when its race is one of the
    first three race options, its ethnicity one of the first two
    ethnicity options and its gender a known one, each condition dropped
    when the column has no known value at all; a row whose gender is
    missing or "Unknown" is dropped as soon as some row has a known
    gender. *)
Theorem first_run_keeps_default_rows (brca_df : DataFrame) (r : Row) :
  let w := default_widgets brca_df in
  r ∈ apply_filters brca_df (selected_races w) (selected_ethnicities w)
        (selected_genders w) (selectbox age_group_options (age_group_picked w)) ↔
  r ∈ brca_df ∧
  (race_opts brca_df = [] ∨ ∃ v, race r = Some v ∧ v ∈ take 3 (race_opts brca_df)) ∧
  (ethnicity_opts brca_df = [] ∨
     ∃ v, ethnicity r = Some v ∧ v ∈ take 2 (ethnicity_opts brca_df)) ∧
  (gender_opts brca_df = [] ∨ ∃ g, gender r = Some g ∧ g ≠ "Unknown").
Proof.
  cbv zeta. cbn [default_widgets selected_races selected_ethnicities selected_genders
                 age_group_picked].
  rewrite default_races_take, default_ethnicities_take, default_genders_all.
  rewrite elem_of_apply_filters.
  rewrite !isin_mask_true.
  change (age_mask (selectbox age_group_options 0) r) with true.
  assert (Ht : ∀ n (l : list string), take (S n) l = [] ↔ l = []).
  { intros n l. by destruct l. }
  rewrite !Ht.
  assert (Hg : r ∈ brca_df →
    (gender_opts brca_df = [] ∨ (∃ v, gender r = Some v ∧ v ∈ gender_opts brca_df)) ↔
    (gender_opts brca_df = [] ∨ (∃ g, gender r = Some g ∧ g ≠ "Unknown"))).
  { intros Hr. unfold gender_opts. setoid_rewrite elem_of_options. naive_solver. }
  split.
  - intros (Hr & H1 & H2 & H3 & _). split_and!; try done. by apply Hg.
  - intros (Hr & H1 & H2 & H3). split_and!; try done. by apply Hg.
Qed.

(** ** Counting tables *)

Section SortValuesPermutation.
Context {A : Type} (cnt : A → nat).

Lemma insert_desc_Permutation x l : insert_desc cnt x l ≡ₚ x :: l.
Proof.
  induction l as [|y l IH]; simpl; [done|].
  destruct (cnt y <=? cnt x); [done|]. rewrite IH. apply Permutation_swap.
Qed.

Lemma sort_values_desc_Permutation l : sort_values_desc cnt l ≡ₚ l.
Proof.
  induction l as [|x l IH]; simpl; [done|].
  by rewrite insert_desc_Permutation, IH.
Qed.

End SortValuesPermutation.

Section UniqueCounts.
Context `{EqDecision A}.
Implicit Types (l ks : list A).

Lemma length_filter_split (P : A → Prop) `{!∀ x, Decision (P x)} l :
  length (filter P l) + length (filter (λ x, ¬ P x) l) = length l.
Proof.
  induction l as [|x l IH]; [done|].
  rewrite !filter_cons. destruct (decide (P x)); simpl.
  - rewrite decide_False by tauto. lia.
  - rewrite decide_True by tauto. simpl. lia.
Qed.

Lemma filter_filter_comm (P Q : A → Prop) `{!∀ x, Decision (P x)} `{!∀ x, Decision (Q x)} l :
  filter P (filter Q l) = filter Q (filter P l).
Proof.
  induction l as [|x l IH]; [done|].
  rewrite !filter_cons. destruct (decide (P x)), (decide (Q x)); simpl;
    rewrite ?filter_cons, ?decide_True, ?decide_False by done; by rewrite IH.
Qed.

Lemma filter_ne_absorb (P : A → Prop) `{!∀ x, Decision (P x)} x l :
  ¬ P x → filter P (filter (λ y, y ≠ x) l) = filter P l.
Proof.
  intros Hx. induction l as [|y l IH]; [done|].
  rewrite !filter_cons. destruct (decide (y ≠ x)) as [Hne|Heq].
  - rewrite filter_cons. by rewrite IH.
  - apply dec_stable in Heq as ->. by rewrite decide_False.
Qed.

(** The distinct values of a masked column are the masked distinct
    values of the column. *)
Lemma unique_filter (P : A → Prop) `{!∀ x, Decision (P x)} l :
  unique (filter P l) = filter P (unique l).
Proof.
  induction l as [|x l IH]; [done|]. simpl.
  rewrite !filter_cons. destruct (decide (P x)); simpl.
  - by rewrite IH, filter_filter_comm.
  - by rewrite IH, filter_ne_absorb.
Qed.

Lemma occurrences_filter (P : A → Prop) `{!∀ x, Decision (P x)} k l :
  P k → occurrences k (filter P l) = occurrences k l.
Proof.
  intros Hk. induction l as [|x l IH]; [done|].
  rewrite filter_cons. destruct (decide (P x)).
  - by rewrite !occurrences_cons, IH.
  - rewrite occurrences_cons, IH. rewrite decide_False; [done|]. by intros ->.
Qed.

Lemma sum_indicator y ks :
  NoDup ks →
  sum_list ((λ k, if decide (y = k) then 1 else 0) <$> ks) = if decide (y ∈ ks) then 1 else 0.
Proof.
  induction 1 as [|k ks Hk Hnd IH]; [done|]. csimpl. rewrite IH.
  destruct (decide (y = k)) as [->|Hne].
  - rewrite (decide_False (P := k ∈ ks)) by done.
    by rewrite decide_True by constructor.
  - destruct (decide (y ∈ ks)).
    + by rewrite decide_True by by constructor.
    + rewrite decide_False; [done|]. rewrite elem_of_cons. tauto.
Qed.

(** Counting each of the distinct values of a list counts every cell
    once. *)
Lemma sum_occurrences ks l :
  NoDup ks → (∀ x, x ∈ l → x ∈ ks) →
  sum_list ((λ k, occurrences k l) <$> ks) = length l.
Proof.
  intros Hnd. induction l as [|y l IH]; intros Hin.
  - clear. induction ks as [|k ks IHks]; [done|]. csimpl. by rewrite IHks.
  - assert (Hsplit : sum_list ((λ k, occurrences k (y :: l)) <$> ks) =
                     sum_list ((λ k, if decide (y = k) then 1 else 0) <$> ks)
                     + sum_list ((λ k, occurrences k l) <$> ks)).
    { clear. induction ks as [|k ks IHks]; [done|]. csimpl.
      rewrite IHks, occurrences_cons. lia. }
    rewrite Hsplit, sum_indicator, IH by eauto using list_elem_of_further.
    rewrite decide_True; [done|]. apply Hin. constructor.
Qed.

Lemma length_filter_eq_NoDup x ks :
  NoDup ks → length (filter (λ y, ¬ y ≠ x) ks) = if decide (x ∈ ks) then 1 else 0.
Proof.
  induction 1 as [|k ks Hk Hnd IH]; [done|].
  rewrite filter_cons. destruct (decide (k = x)) as [->|Hne].
  - rewrite decide_True by tauto. simpl. rewrite IH.
    rewrite decide_False by done. by rewrite decide_True by constructor.
  - rewrite decide_False by tauto. rewrite IH.
    destruct (decide (x ∈ ks)).
    + by rewrite decide_True by by constructor.
    + rewrite decide_False; [done|]. rewrite elem_of_cons. naive_solver.
Qed.
End UniqueCounts.

Lemma filter_fst_fmap (u : string) (f : string → nat) (l : list string) :
  filter (λ p : string * nat, p.1 ≠ u) ((λ s, (s, f s)) <$> l) =
  (λ s, (s, f s)) <$> filter (λ s, s ≠ u) l.
Proof.
  induction l as [|x l IH]; [done|]. csimpl.
  rewrite !filter_cons. simpl. destruct (decide (x ≠ u)); csimpl; by rewrite IH.
Qed.

(** The rows of a count table that are not "Unknown", up to their
    order: one for each distinct known value of the column. *)
Lemma known_counts_Permutation col :
  filter (λ p, p.1 ≠ "Unknown") (value_counts col) ≡ₚ
  (λ s, (s, occurrences s (dropna col)))
    <$> unique (filter (λ s, s ≠ "Unknown") (dropna col)).
Proof.
  unfold value_counts. cbv zeta. rewrite sort_values_desc_Permutation.
  by rewrite filter_fst_fmap, unique_filter.
Qed.

Lemma known_counts_length col :
  length (filter (λ p, p.1 ≠ "Unknown") (value_counts col)) =
  length (unique (filter (λ s, s ≠ "Unknown") (dropna col))).
Proof. by rewrite known_counts_Permutation, length_fmap. Qed.

Lemma known_counts_total col :
  total (filter (λ p, p.1 ≠ "Unknown") (value_counts col)) =
  length (filter (λ s, s ≠ "Unknown") (dropna col)).
Proof.
  unfold total. rewrite known_counts_Permutation, <-list_fmap_compose.
  rewrite <-(sum_occurrences (unique (filter (λ s, s ≠ "Unknown") (dropna col)))
               (filter (λ s, s ≠ "Unknown") (dropna col)));
    [|apply NoDup_unique | by intros x; rewrite elem_of_unique].
  f_equal. apply list_fmap_ext. intros i s Hs. simpl.
  apply list_elem_of_lookup_2, elem_of_unique, list_elem_of_filter in Hs as [Hne _].
  by rewrite (occurrences_filter (λ s, s ≠ "Unknown")).
Qed.

Lemma known_counts_NoDup col :
  NoDup (fst <$> filter (λ p, p.1 ≠ "Unknown") (value_counts col)).
Proof.
  rewrite known_counts_Permutation, <-list_fmap_compose.
  rewrite (list_fmap_ext _ id) by done.
  rewrite list_fmap_id. apply NoDup_unique.
Qed.

Lemma dropna_cons_Some {A} (x : A) col : dropna (Some x :: col) = x :: dropna col.
Proof. done. Qed.

Lemma dropna_cons_None {A} (col : list (option A)) : dropna (None :: col) = dropna col.
Proof. done. Qed.

Lemma dropna_select_ne (col : Row → option string) u df :
  dropna (col <$> select (λ r, Cell.ne u (col r)) df) =
  filter (λ s, s ≠ u) (dropna (col <$> df)).
Proof.
  induction df as [|r df IH]; [done|].
  rewrite select_cons, (fmap_cons col r df).
  destruct (col r) as [s|] eqn:Hcol; unfold Cell.ne at 1.
  - rewrite dropna_cons_Some, filter_cons.
    destruct (String.eqb_spec s u) as [->|Hne]; cbn [negb].
    + by rewrite decide_False by tauto.
    + rewrite decide_True by done.
      by rewrite fmap_cons, Hcol, dropna_cons_Some, IH.
  - by rewrite fmap_cons, Hcol, !dropna_cons_None.
Qed.

Lemma stage_counts_total_rows d :
  total (stage_counts d) =
  length (select (λ r, Cell.ne "Unknown" (stage r) && bool_decide (stage r ≠ None)) d).
Proof.
  unfold stage_counts. rewrite known_counts_total.
  induction d as [|r d IH]; [done|].
  rewrite select_cons, fmap_cons. destruct (stage r) as [s|]; unfold Cell.ne at 1.
  - rewrite dropna_cons_Some, filter_cons.
    destruct (String.eqb_spec s "Unknown") as [->|Hne]; cbn [negb andb].
    + by rewrite decide_False by tauto.
    + rewrite decide_True by done. rewrite bool_decide_eq_true_2 by done.
      cbn [length]. by rewrite IH.
  - rewrite dropna_cons_None. rewrite bool_decide_eq_false_2 by tauto.
    cbn [andb]. exact IH.
Qed.

(** X9: the bars of the stage chart count every row with a known stage
    once: the counts add up to the number of rows whose stage is present
    and not "Unknown", no stage has two bars, and no bar is empty. *)
Theorem stage_counts_total (site_filtered : DataFrame) :
  total (stage_counts site_filtered) =
    length (select (λ r, Cell.ne "Unknown" (stage r) && bool_decide (stage r ≠ None))
              site_filtered) ∧
  NoDup (fst <$> stage_counts site_filtered) ∧
  (∀ p, p ∈ stage_counts site_filtered → 0 < p.2).
Proof.
  split_and!.
  - apply stage_counts_total_rows.
  - apply known_counts_NoDup.
  - intros p Hp. apply elem_of_stage_counts in Hp as (_ & Hin & ->).
    by apply occurrences_pos.
Qed.

(** X10: the Stages Represented scalar is the number of bars the stage
    chart has when the site selector is at "All". *)
Theorem unique_stages_is_stage_chart_size (filtered_df : DataFrame) :
  unique_stages filtered_df = length (stage_counts (site_filtered filtered_df "All")).
Proof.
  rewrite site_filtered_all. unfold unique_stages, nunique, stage_counts.
  by rewrite known_counts_length, dropna_select_ne.
Qed.

Lemma site_counts_length df :
  length (site_counts df) = 10 `min` unique_sites_excluding_unknown df.
Proof.
  unfold site_counts. rewrite length_take, known_counts_length.
  unfold unique_sites_excluding_unknown, nunique. by rewrite dropna_select_ne.
Qed.

Lemma site_counts_NoDup df : NoDup (fst <$> site_counts df).
Proof.
  unfold site_counts. eapply sublist_NoDup; [apply known_counts_NoDup|].
  rewrite fmap_take. apply sublist_take.
Qed.

(** X11: the site chart has one bar for each distinct known site, up to
    ten: its size is the smaller of ten and the number of distinct sites
    other than "Unknown"; no site has two bars, and the bars count at
    most the rows whose site is known. *)
Theorem site_counts_size (filtered_df : DataFrame) :
  length (site_counts filtered_df) = 10 `min` unique_sites_excluding_unknown filtered_df ∧
  NoDup (fst <$> site_counts filtered_df) ∧
  total (site_counts filtered_df)
    ≤ length (filter (λ s, s ≠ "Unknown") (dropna (site <$> filtered_df))).
Proof.
  split_and!; [apply site_counts_length | apply site_counts_NoDup |].
  unfold site_counts.
  - rewrite <-known_counts_total. unfold total.
    rewrite <-(take_drop 10 (filter _ (value_counts _))) at 2.
    rewrite fmap_app, sum_list_with_app. lia.
Qed.

(** X12: the Unique Sites scalar is the number of distinct known sites,
    plus one when some row has the site "Unknown". *)
Theorem unique_sites_counts_unknown_once (filtered_df : DataFrame) :
  unique_sites filtered_df =
  unique_sites_excluding_unknown filtered_df
  + (if decide (Some "Unknown" ∈ site <$> filtered_df) then 1 else 0).
Proof.
  unfold unique_sites, unique_sites_excluding_unknown, nunique.
  rewrite dropna_select_ne, unique_filter.
  rewrite <-(length_filter_split (λ s, s ≠ "Unknown") (unique (dropna (site <$> filtered_df)))).
  f_equal. rewrite length_filter_eq_NoDup by apply NoDup_unique.
  destruct (decide (Some "Unknown" ∈ site <$> filtered_df)) as [Hin|Hin].
  - rewrite decide_True; [done|]. by rewrite elem_of_unique, elem_of_dropna.
  - rewrite decide_False; [done|]. by rewrite elem_of_unique, elem_of_dropna.
Qed.

(** ** Rankings *)

Lemma known_counts_ranked col :
  StronglySorted
    (by_count_then snd (λ p q, first_seen (Some p.1) col < first_seen (Some q.1) col))
    (filter (λ p, p.1 ≠ "Unknown") (value_counts col)).
Proof.
  eapply StronglySorted_sublist; [apply sublist_filter | apply value_counts_ranked].
Qed.

(** X13: the site chart shows the most frequent known sites: a known
    site met in the data and left out of the chart has at most as many
    rows as any site in the chart. *)
Theorem site_counts_are_the_top (filtered_df : DataFrame) (p : string * nat) (s : string) :
  p ∈ site_counts filtered_df →
  Some s ∈ site <$> filtered_df → s ≠ "Unknown" →
  s ∉ fst <$> site_counts filtered_df →
  occurrences (Some s) (site <$> filtered_df) ≤ p.2.
Proof.
  unfold site_counts. set (L := filter _ (value_counts _)).
  intros Hp Hs Hne Hout.
  apply elem_of_take in Hp as (i & Hi & Hlt).
  assert (Hq : (s, occurrences (Some s) (site <$> filtered_df)) ∈ L).
  { apply list_elem_of_filter. split; [done|]. by apply elem_of_value_counts. }
  apply list_elem_of_lookup_1 in Hq as (j & Hj).
  assert (Hge : 10 ≤ j).
  { destruct (decide (j < 10)) as [Hjlt|]; [|lia]. exfalso. apply Hout.
    apply list_elem_of_fmap. eexists. split; [|apply elem_of_take; eauto]. done. }
  assert (Hij : i < j) by lia.
  destruct (ranked_lookup _ _ _ _ _ _ _ (known_counts_ranked _) Hij Hi Hj) as [Hle _].
  exact Hle.
Qed.

Example site_counts_are_the_top_witness :
  let at_site s := mkRow None None None None (Some s) None in
  let df := at_site "K" :: at_site "K" ::
            (at_site <$> ["A"; "B"; "C"; "D"; "E"; "F"; "G"; "H"; "I"; "J"]) in
  ("A", 1) ∈ site_counts df ∧ occurrences (Some "J") (site <$> df) ≤ 1.
Proof.
  cbv zeta. split; [vm_compute; do 1 right; by left|].
  match goal with |- occurrences _ (site <$> ?df) ≤ _ =>
    apply (site_counts_are_the_top df ("A", 1) "J")
  end.
  - apply list_elem_of_In. vm_compute. right. by left.
  - apply list_elem_of_In. vm_compute. do 11 right. by left.
  - done.
  - intros Hin. apply list_elem_of_In in Hin. vm_compute in Hin.
    repeat (destruct Hin as [Hin|Hin]; [discriminate Hin|]). done.
Defined.

(** *** Race and ethnicity groups *)

Lemma insert_key_Permutation k l : insert_key k l ≡ₚ k :: l.
Proof.
  induction l as [|y l IH]; simpl; [done|].
  destruct (key_leb k y); [done|]. rewrite IH. apply Permutation_swap.
Qed.

Lemma sort_keys_Permutation l : sort_keys l ≡ₚ l.
Proof.
  induction l as [|x l IH]; simpl; [done|].
  by rewrite insert_key_Permutation, IH.
Qed.

Lemma total_Permutation {K} (t1 t2 : list (K * nat)) : t1 ≡ₚ t2 → total t1 = total t2.
Proof. intros Hp. unfold total. by rewrite Hp. Qed.

Lemma groupby_size_total df : total (groupby_size df) = length (omap group_key df).
Proof.
  unfold total, groupby_size. cbv zeta.
  rewrite <-list_fmap_compose, sort_keys_Permutation.
  apply (sum_occurrences (unique (omap group_key df)) (omap group_key df));
    [apply NoDup_unique | by intros x; rewrite elem_of_unique].
Qed.

Lemma groupby_size_keys df : fst <$> groupby_size df = sort_keys (unique (omap group_key df)).
Proof.
  unfold groupby_size. cbv zeta. rewrite <-list_fmap_compose.
  rewrite (list_fmap_ext _ id) by done. apply list_fmap_id.
Qed.

(** X14: the groups of the race and ethnicity breakdown are distinct
    and count rows once: no (race, ethnicity) pair has two bars; the
    counts add up to at most the number of rows with both a race and an
    ethnicity, and to exactly that number when there are at most ten
    distinct pairs, in which case no group is cut off. *)
Theorem demo_counts_total (filtered_df : DataFrame) :
  let keys := omap group_key filtered_df in
  NoDup (fst <$> demo_counts filtered_df) ∧
  total (demo_counts filtered_df) ≤ length keys ∧
  (length (unique keys) ≤ 10 →
     total (demo_counts filtered_df) = length keys ∧
     demo_counts filtered_df ≡ₚ groupby_size filtered_df).
Proof.
  cbv zeta. unfold demo_counts, demo_counts_by.
  set (S := sort_values_desc snd (groupby_size filtered_df)).
  assert (HS : total S = length (omap group_key filtered_df)).
  { rewrite <-groupby_size_total. apply total_Permutation, sort_values_desc_Permutation. }
  split_and!.
  - rewrite fmap_take. eapply sublist_NoDup; [|apply sublist_take].
    unfold S. rewrite sort_values_desc_Permutation, groupby_size_keys, sort_keys_Permutation.
    apply NoDup_unique.
  - rewrite <-HS. unfold total. rewrite <-(take_drop 10 S) at 2.
    rewrite fmap_app, sum_list_with_app. lia.
  - intros Hfew.
    assert (Hall : take 10 S = S).
    { apply take_ge. unfold S. rewrite length_sort_values_desc.
      rewrite <-(length_fmap fst), groupby_size_keys, sort_keys_Permutation. done. }
    rewrite Hall. split; [done | apply sort_values_desc_Permutation].
Qed.

Example demo_counts_total_witness :
  let df := [mkRow (Some "White") (Some "Hispanic") None None None None;
             mkRow (Some "White") None None None None None;
             mkRow (Some "White") (Some "Hispanic") None None None None] in
  length (unique (omap group_key df)) ≤ 10 ∧ total (demo_counts df) = 2.
Proof.
  cbv zeta. split; [vm_compute; lia|].
  match goal with |- total (demo_counts ?df) = _ =>
    destruct (demo_counts_total df) as (_ & _ & Hfew)
  end.
  destruct Hfew as [-> _]; [vm_compute; lia | done].
Defined.

(** ** Stage view under a site selection *)

Lemma occurrences_sublist `{EqDecision A} (x : A) (l1 l2 : list A) :
  l1 `sublist_of` l2 → occurrences x l1 ≤ occurrences x l2.
Proof.
  induction 1 as [|y l1 l2 Hsub IH|y l1 l2 Hsub IH]; [done| |];
    rewrite ?occurrences_cons; lia.
Qed.

Lemma site_filtered_sublist df selected : site_filtered df selected `sublist_of` df.
Proof.
  unfold site_filtered. case_match; [apply select_sublist | done].
Qed.

Lemma length_select_site df s :
  length (select (λ r, Cell.eq s (site r)) df) = occurrences (Some s) (site <$> df).
Proof.
  induction df as [|r df IH]; [done|].
  rewrite select_cons, fmap_cons, occurrences_cons, <-IH.
  destruct (site r) as [x|]; unfold Cell.eq at 1.
  - destruct (String.eqb_spec x s) as [->|Hne]; case_decide; simplify_eq; done.
  - by case_decide.
Qed.

(** X15: narrowing the stage view to a site never invents rows: each
    bar of the narrowed chart is a bar of the chart for "All" with at
    least as many rows, and the bars of the chart for a site other than
    "All" add up to at most the rows of that site, which is the length of
    the site's bar in the site chart. *)
Theorem stage_counts_under_selection (filtered_df : DataFrame) (selected : string) :
  (∀ p, p ∈ stage_counts (site_filtered filtered_df selected) →
        ∃ c, (p.1, c) ∈ stage_counts filtered_df ∧ p.2 ≤ c) ∧
  (selected ≠ "All" →
     total (stage_counts (site_filtered filtered_df selected))
     ≤ occurrences (Some selected) (site <$> filtered_df)) ∧
  (∀ n, selected ≠ "All" → (selected, n) ∈ site_counts filtered_df →
     total (stage_counts (site_filtered filtered_df selected)) ≤ n).
Proof.
  assert (Hbound : selected ≠ "All" →
     total (stage_counts (site_filtered filtered_df selected))
     ≤ occurrences (Some selected) (site <$> filtered_df)).
  { intros Hne. rewrite stage_counts_total_rows.
    etrans; [apply sublist_length, select_sublist|].
    by rewrite site_filtered_exact, length_select_site. }
  split_and!; [|done|].
  - intros p Hp. apply elem_of_stage_counts in Hp as (Hne & Hin & Hc).
    exists (occurrences (Some p.1) (stage <$> filtered_df)). split.
    + apply elem_of_stage_counts. simpl. split_and!; [done| |done].
      eapply elem_of_sublist; [exact Hin|].
      apply fmap_sublist, site_filtered_sublist.
    + rewrite Hc. apply occurrences_sublist, fmap_sublist, site_filtered_sublist.
  - intros n Hne Hn. apply elem_of_site_counts in Hn as (_ & _ & Hn). simpl in Hn.
    rewrite Hn. by apply Hbound.
Qed.

Example stage_counts_under_selection_witness :
  let df := [mkRow None None None None (Some "Lung") (Some "I");
             mkRow None None None None (Some "Lung") (Some "Unknown");
             mkRow None None None None (Some "Breast") (Some "I")] in
  "Lung" ≠ "All" ∧ ("Lung", 2) ∈ site_counts df ∧
  total (stage_counts (site_filtered df "Lung")) ≤ 2.
Proof.
  cbv zeta. split; [done|]. split; [vm_compute; by left|].
  match goal with |- total (stage_counts (site_filtered ?df _)) ≤ _ =>
    destruct (stage_counts_under_selection df "Lung") as (_ & _ & Hbar)
  end.
  apply Hbar; [done|]. vm_compute. by left.
Defined.

(** ** What the page renders *)

Lemma page_loaded brca_df w :
  page_sites_demographics (Some brca_df) w =
  ([st_header "Sites & Demographics Map View"; st_sidebar_subheader "Filters"] ++
   if is_empty (filtered_of brca_df w) then
     [st_warning "No data matches current filters. Please adjust your selection."]
   else views (filtered_of brca_df w) (selected_site_picked w))%list.
Proof. done. Qed.

(** X16: the page renders exactly one of three things after its header:
    the load error when the data could not be loaded, the guidance message
    when the data loaded and no row passes the filters, the charts and
    scalars when some row passes; an error or a warning never comes with a
    chart or a scalar. *)
Theorem page_renders_one_state (loaded : option DataFrame) (w : Widgets) :
  (∀ msg, st_error msg ∈ page_sites_demographics loaded w ↔
          loaded = None ∧ msg = "Error: Could not locate clinical.tsv") ∧
  (∀ msg, st_warning msg ∈ page_sites_demographics loaded w ↔
          (∃ brca_df, loaded = Some brca_df ∧ filtered_of brca_df w = []) ∧
          msg = "No data matches current filters. Please adjust your selection.") ∧
  ((∃ e, e ∈ page_sites_demographics loaded w ∧ is_aggregate e = true) ↔
   ∃ brca_df, loaded = Some brca_df ∧ filtered_of brca_df w ≠ []).
Proof.
  destruct loaded as [brca_df|].
  - rewrite page_loaded. destruct (filtered_of brca_df w) as [|r d] eqn:Hf; simpl.
    + split_and!.
      * intros msg. split; [intros He; elem_cases He; done | by intros [? _]].
      * intros msg. split.
        -- intros He. elem_cases He; try done. simplify_eq. split; [by exists brca_df | done].
        -- intros [_ ->]. do 2 right. by left.
      * split; [intros (e & He & Hagg); elem_cases He; by subst|].
        intros (? & ? & ?). by simplify_eq.
    + split_and!.
      * intros msg. split; [|by intros [? _]].
        intros He. unfold views, stage_view in He. cbv zeta in He. elem_cases He; done.
      * intros msg. split; [|intros [(? & ? & ?) _]; simplify_eq; congruence].
        intros He. unfold views, stage_view in He. cbv zeta in He. elem_cases He; done.
      * split; [intros _; exists brca_df; by rewrite Hf|]. intros _.
        exists (st_sidebar_metric "Patients in View" (length (r :: d))).
        split; [|done]. do 2 right. unfold views. by left.
  - split_and!.
    + intros msg. split.
      * intros He. unfold page_sites_demographics in He. elem_cases He; try done.
        by simplify_eq.
      * intros [_ ->]. right. by left.
    + intros msg. split; [|intros [(? & ? & ?) _]; done].
      intros He. unfold page_sites_demographics in He. elem_cases He; done.
    + split; [|intros (? & ? & ?); done].
      intros (e & He & Hagg). unfold page_sites_demographics in He.
      elem_cases He; by subst.
Qed.

(** X17: when some row passes the filters, the sidebar counter and the
    Total Patients scalar both show the number of rows that pass, which
    is at least one and at most the number of loaded rows; the page shows
    no other value in either place. *)
Theorem page_counts_filtered_rows (brca_df : DataFrame) (w : Widgets) :
  filtered_of brca_df w ≠ [] →
  let page := page_sites_demographics (Some brca_df) w in
  let n := length (filtered_of brca_df w) in
  0 < n ≤ length brca_df ∧
  st_sidebar_metric "Patients in View" n ∈ page ∧
  st_metric "Total Patients" (Count n) ∈ page ∧
  (∀ label v, st_sidebar_metric label v ∈ page → v = n) ∧
  (∀ v, st_metric "Total Patients" v ∈ page → v = Count n).
Proof.
  intros Hne. cbv zeta. rewrite page_loaded.
  apply is_empty_false in Hne as Hemp. rewrite Hemp.
  split_and!.
  - destruct (filtered_of brca_df w); [done|]. simpl. lia.
  - apply sublist_length, apply_filters_sublist.
  - do 2 right. unfold views. by left.
  - apply elem_of_app. right. unfold views.
    rewrite !elem_of_app. do 4 right. do 2 right. by left.
  - intros label v He. unfold views, stage_view in He. cbv zeta in He.
    elem_cases He; try done; by simplify_eq.
  - intros v He. unfold views, stage_view in He. cbv zeta in He.
    elem_cases He; try done; by simplify_eq.
Qed.

Example page_counts_filtered_rows_witness :
  let brca_df := [mkRow (Some "White") None None None None None;
                  mkRow (Some "Black") None None None None None] in
  let w := mkWidgets ["White"] [] 0 [] 0 in
  filtered_of brca_df w ≠ [] ∧
  st_metric "Total Patients" (Count 1) ∈ page_sites_demographics (Some brca_df) w.
Proof.
  cbv zeta. split; [by vm_compute|].
  match goal with |- _ ∈ page_sites_demographics (Some ?df) ?w =>
    destruct (page_counts_filtered_rows df w) as (_ & _ & Htotal & _)
  end; [by vm_compute | exact Htotal].
Defined.

(** ** Ages *)

Lemma age_hist_nil df : age_hist df = [] ↔ ∀ r, r ∈ df → age r = None.
Proof.
  unfold age_hist. split.
  - intros Hnil r Hr. destruct (age r) as [a|] eqn:Ha; [|done].
    assert (Hin : a ∈ dropna (age <$> df)).
    { apply elem_of_dropna, list_elem_of_fmap. by exists r. }
    rewrite Hnil in Hin. by apply elem_of_nil in Hin.
  - intros Hall. destruct (dropna (age <$> df)) as [|a l] eqn:Hd; [done|].
    assert (Hin : a ∈ dropna (age <$> df)) by (rewrite Hd; constructor).
    apply elem_of_dropna, list_elem_of_fmap in Hin as (r & Ha & Hr).
    rewrite (Hall r Hr) in Ha. done.
Qed.

Lemma avg_age_None df : avg_age df = None ↔ age_hist df = [].
Proof.
  unfold avg_age, mean, age_hist. by destruct (dropna (age <$> df)).
Qed.

(** X18: the age chart and the average go together: the chart is drawn
    exactly when some row has an age, with the present ages in row order
    as its data, and exactly then the average is a number; when no row
    has an age the chart is skipped and the average is the missing value
    (printed as it is). *)
Theorem age_chart_iff_average (filtered_df : DataFrame) (picked : nat) :
  (avg_age filtered_df = None ↔ ∀ r, r ∈ filtered_df → age r = None) ∧
  (∀ data, age_chart data ∈ views filtered_df picked ↔
           data = age_hist filtered_df ∧ avg_age filtered_df ≠ None) ∧
  st_metric "Avg Age at Diagnosis" (Average (avg_age filtered_df))
    ∈ views filtered_df picked.
Proof.
  split_and!.
  - by rewrite avg_age_None, age_hist_nil.
  - intros data. rewrite avg_age_None. split.
    + intros He. unfold views, stage_view in He. cbv zeta in He.
      destruct (age_hist filtered_df) as [|a l] eqn:Hh; simpl in He;
        elem_cases He; try done. by simplify_eq.
    + intros [-> Hne]. unfold views. cbv zeta.
      destruct (age_hist filtered_df) as [|a l] eqn:Hh; [done|]. simpl.
      do 5 right. by left.
  - unfold views. rewrite !elem_of_app. do 4 right.
    do 5 right. by left.
Qed.

Lemma Qsum_le (hi : Q) (l : list Q) :
  Forall (λ a, (a <= hi)%Q) l →
  (foldr Qplus 0 l <= hi * inject_Z (Z.of_nat (length l)))%Q.
Proof.
  induction 1 as [|a l Ha Hl IH].
  - simpl. rewrite Qmult_0_r. apply Qle_refl.
  - cbn [foldr length]. rewrite Nat2Z.inj_succ, <-Z.add_1_l, inject_Z_plus.
    rewrite Qmult_plus_distr_r, Qmult_1_r. by apply Qplus_le_compat.
Qed.

Lemma Qsum_ge (lo : Q) (l : list Q) :
  Forall (λ a, (lo <= a)%Q) l →
  (lo * inject_Z (Z.of_nat (length l)) <= foldr Qplus 0 l)%Q.
Proof.
  induction 1 as [|a l Ha Hl IH].
  - simpl. rewrite Qmult_0_r. apply Qle_refl.
  - cbn [foldr length]. rewrite Nat2Z.inj_succ, <-Z.add_1_l, inject_Z_plus.
    rewrite Qmult_plus_distr_r, Qmult_1_r. by apply Qplus_le_compat.
Qed.

Lemma mean_Some col m :
  mean col = Some m →
  m = (foldr Qplus 0 (dropna col) / inject_Z (Z.of_nat (length (dropna col))))%Q ∧
  (0 < inject_Z (Z.of_nat (length (dropna col))))%Q.
Proof.
  unfold mean. destruct (dropna col) as [|x xs]; [done|].
  intros [= <-]. split; [done|].
  unfold Qlt. cbn [length]. simpl. lia.
Qed.

(** The mean of a column lies between any bounds of its present
    values. *)
Lemma mean_between col m :
  mean col = Some m →
  (∀ hi, Forall (λ a, (a <= hi)%Q) (dropna col) → (m <= hi)%Q) ∧
  (∀ lo, Forall (λ a, (lo <= a)%Q) (dropna col) → (lo <= m)%Q).
Proof.
  intros Hm. apply mean_Some in Hm as [-> Hpos]. split.
  - intros hi Hall. apply Qle_shift_div_r; [done|]. by apply Qsum_le.
  - intros lo Hall. apply Qle_shift_div_l; [done|]. by apply Qsum_ge.
Qed.

Lemma ages_of_select mask df (P : Q → Prop) :
  (∀ r a, mask r = true → age r = Some a → P a) →
  Forall P (dropna (age <$> select mask df)).
Proof.
  intros HP. apply Forall_forall. intros a Ha.
  apply elem_of_dropna, list_elem_of_fmap in Ha as (r & Ha & Hr).
  apply elem_of_select in Hr as [Hmask _]. by eapply HP.
Qed.

(** X19: the average age shown under an age group lies in the group:
    at most 45 under Young, from 45 to 65 under Adult, at least 65 under
    Senior. *)
Theorem avg_age_within_bracket (filtered_df : DataFrame) (m : Q) :
  (avg_age (filter_age "Young (0-45)" filtered_df) = Some m → (m <= 45)%Q) ∧
  (avg_age (filter_age "Adult (45-65)" filtered_df) = Some m →
     (45 <= m)%Q ∧ (m <= 65)%Q) ∧
  (avg_age (filter_age "Senior (65+)" filtered_df) = Some m → (65 <= m)%Q).
Proof.
  unfold avg_age. split_and!; intros Hm; apply mean_between in Hm as [Hhi Hlo].
  - apply Hhi.
    apply (ages_of_select (λ r, Cell.le 45 (age r))). intros r a Hmask Ha.
    rewrite Ha in Hmask. by apply Qle_bool_iff.
  - split.
    + apply Hlo.
      apply (ages_of_select (λ r, Cell.gt 45 (age r) && Cell.le 65 (age r))).
      intros r a Hmask Ha. rewrite Ha in Hmask.
      apply andb_true_iff in Hmask as [Hgt _].
      by apply Qlt_le_weak, Qlt_bool_iff.
    + apply Hhi.
      apply (ages_of_select (λ r, Cell.gt 45 (age r) && Cell.le 65 (age r))).
      intros r a Hmask Ha. rewrite Ha in Hmask.
      apply andb_true_iff in Hmask as [_ Hle]. by apply Qle_bool_iff.
  - apply Hlo.
    apply (ages_of_select (λ r, Cell.gt 65 (age r))). intros r a Hmask Ha.
    rewrite Ha in Hmask. by apply Qlt_le_weak, Qlt_bool_iff.
Qed.

Example avg_age_within_bracket_witness :
  let df := [mkRow None None None (Some 40%Q) None None;
             mkRow None None None (Some 30%Q) None None;
             mkRow None None None (Some 70%Q) None None] in
  avg_age (filter_age "Young (0-45)" df) = Some (70 / 2)%Q ∧ (70 / 2 <= 45)%Q.
Proof.
  cbv zeta. split; [reflexivity|].
  match goal with |- (?m <= _)%Q =>
    destruct (avg_age_within_bracket
                [mkRow None None None (Some 40%Q) None None;
                 mkRow None None None (Some 30%Q) None None;
                 mkRow None None None (Some 70%Q) None None] m) as [Hyoung _]
  end.
  apply Hyoung. reflexivity.
Defined.

(** ** Site selector *)

Lemma filter_all_true `{EqDecision A} (x : A) (l : list A) :
  x ∉ l → filter (λ y, y ≠ x) l = l.
Proof.
  induction l as [|y l IH]; [done|]. intros Hx.
  apply not_elem_of_cons in Hx as [Hne Hx].
  rewrite filter_cons, decide_True by done. by rewrite IH.
Qed.

Lemma unique_NoDup `{EqDecision A} (l : list A) : NoDup l → unique l = l.
Proof.
  induction 1 as [|x l Hx Hnd IH]; [done|]. simpl.
  by rewrite IH, filter_all_true.
Qed.

(** X20: the site selector offers "All" followed by the sites of the
    site chart in chart order (taking the distinct sites of the chart
    changes nothing), so at most eleven choices; it starts at "All", a
    pick beyond the list falls back to "All", and the pick after "All"
    number i is the site of bar i of the chart. *)
Theorem site_selector_follows_site_chart (filtered_df : DataFrame) :
  site_options filtered_df = "All" :: (fst <$> site_counts filtered_df) ∧
  length (site_options filtered_df) ≤ 11 ∧
  selected_site filtered_df 0 = "All" ∧
  (∀ picked, length (site_options filtered_df) ≤ picked →
             selected_site filtered_df picked = "All") ∧
  (∀ i p, site_counts filtered_df !! i = Some p →
          selected_site filtered_df (S i) = p.1).
Proof.
  assert (Hopts : site_options filtered_df = "All" :: (fst <$> site_counts filtered_df)).
  { unfold site_options. f_equal. apply unique_NoDup.
    apply site_counts_NoDup. }
  split_and!; [done| | | |].
  - rewrite Hopts. cbn [length]. rewrite length_fmap.
    rewrite site_counts_length. lia.
  - unfold selected_site. by rewrite Hopts.
  - intros picked Hge. unfold selected_site, selectbox.
    rewrite (lookup_ge_None_2 _ picked) by done. by rewrite Hopts.
  - intros i p Hp. unfold selected_site, selectbox. rewrite Hopts.
    rewrite lookup_cons, list_lookup_fmap, Hp. done.
Qed.

Example site_selector_follows_site_chart_witness :
  let df := [mkRow None None None None (Some "Lung") None;
             mkRow None None None None (Some "Breast") None;
             mkRow None None None None (Some "Breast") None] in
  site_counts df !! 1 = Some ("Lung", 1) ∧ selected_site df 2 = "Lung".
Proof.
  cbv zeta. split; [reflexivity|].
  match goal with |- selected_site ?df _ = _ =>
    destruct (site_selector_follows_site_chart df) as (_ & _ & _ & _ & Hbar)
  end.
  apply (Hbar 1 ("Lung", 1)). reflexivity.
Defined.

(** ** Stage chart *)

(** X21: the stage chart is drawn exactly when some row of the selected
    site has a stage that is present and not "Unknown"; the view is then
    its caption and the chart of the stage counts, titled "Stages for All
    Sites" under "All" and "Stages for" followed by the site otherwise. *)
Theorem stage_chart_drawn_iff_known_stage (filtered_df : DataFrame) (selected : string) :
  let restricted := site_filtered filtered_df selected in
  let title := "Stages for " +:+ (if decide (selected = "All") then "All Sites" else selected) in
  ((∃ r s, r ∈ restricted ∧ stage r = Some s ∧ s ≠ "Unknown") →
   stage_view filtered_df selected =
     [st_write "**Stage Distribution for Selected Site**";
      stage_chart (stage_counts restricted) title]) ∧
  (∀ data t, stage_chart data t ∈ stage_view filtered_df selected →
     data = stage_counts restricted ∧ t = title ∧
     ∃ r s, r ∈ restricted ∧ stage r = Some s ∧ s ≠ "Unknown").
Proof.
  cbv zeta.
  assert (Htitle : (if negb (String.eqb selected "All") then selected else "All Sites") =
                   (if decide (selected = "All") then "All Sites" else selected)).
  { destruct (String.eqb_spec selected "All"); by case_decide. }
  assert (Hknown : stage_counts (site_filtered filtered_df selected) ≠ [] →
            ∃ r s, r ∈ site_filtered filtered_df selected ∧ stage r = Some s
                   ∧ s ≠ "Unknown").
  { intros Hne. destruct (stage_counts _) as [|p l] eqn:Hsc; [done|].
    assert (Hp : p ∈ stage_counts (site_filtered filtered_df selected))
      by (rewrite Hsc; constructor).
    apply elem_of_stage_counts in Hp as (Hu & Hin & _).
    apply list_elem_of_fmap in Hin as (r & Hs & Hr). by exists r, p.1. }
  split.
  - intros (r & s & Hr & Hs & Hne). unfold stage_view. cbv zeta.
    assert (Hd : is_empty (site_filtered filtered_df selected) = false).
    { apply is_empty_false. intros Hnil. rewrite Hnil in Hr. by apply elem_of_nil in Hr. }
    assert (Hc : is_empty (stage_counts (site_filtered filtered_df selected)) = false).
    { apply is_empty_false. intros Hnil.
      destruct (proj1 (stage_counts_nil _) Hnil r Hr); congruence. }
    rewrite Hd, Hc, Htitle. done.
  - intros data t He. unfold stage_view in He. cbv zeta in He. rewrite Htitle in He.
    apply elem_of_cons in He as [?|He]; [done|].
    destruct (is_empty (site_filtered filtered_df selected)); simpl in He;
      [by apply list_elem_of_singleton in He|].
    destruct (is_empty (stage_counts _)) eqn:Hc; simpl in He;
      apply list_elem_of_singleton in He; [done|]. simplify_eq.
    split_and!; [done..|]. apply Hknown. by apply is_empty_false.
Qed.

Example stage_chart_drawn_iff_known_stage_witness :
  let df := [mkRow None None None None (Some "Lung") (Some "II");
             mkRow None None None None (Some "Breast") (Some "I")] in
  stage_view df "Lung" =
    [st_write "**Stage Distribution for Selected Site**";
     stage_chart [("II", 1)] "Stages for Lung"].
Proof.
  cbv zeta.
  match goal with |- stage_view ?df _ = _ =>
    destruct (stage_chart_drawn_iff_known_stage df "Lung") as [Hdraw _]
  end.
  rewrite Hdraw; [reflexivity|].
  exists (mkRow None None None None (Some "Lung") (Some "II")), "II".
  split; [|done]. apply list_elem_of_In. vm_compute. by left.
Defined.

(** X22: the stage chart is ranked like the site chart: counts do not
    increase down the table, and two stages of equal count stand in the
    order in which they are first met in the rows of the selected site. *)
Theorem stage_counts_ranking (site_filtered : DataFrame) (i j : nat) (p q : string * nat) :
  i < j →
  stage_counts site_filtered !! i = Some p → stage_counts site_filtered !! j = Some q →
  q.2 ≤ p.2 ∧
  (p.2 = q.2 →
   first_seen (Some p.1) (stage <$> site_filtered)
   < first_seen (Some q.1) (stage <$> site_filtered)).
Proof.
  apply (ranked_lookup snd
           (λ p q, first_seen (Some p.1) (stage <$> site_filtered)
                   < first_seen (Some q.1) (stage <$> site_filtered))).
  apply known_counts_ranked.
Qed.

Example stage_counts_ranking_witness :
  let df := [mkRow None None None None None (Some "II");
             mkRow None None None None None (Some "Unknown");
             mkRow None None None None None (Some "I")] in
  stage_counts df = [("II", 1); ("I", 1)] ∧
  first_seen (Some "II") (stage <$> df) < first_seen (Some "I") (stage <$> df).
Proof.
  cbv zeta. split; [reflexivity|].
  match goal with |- first_seen _ (stage <$> ?df) < _ =>
    apply (stage_counts_ranking df 0 1 ("II", 1) ("I", 1)); [lia | reflexivity..]
  end.
Defined.

(** ** Filters and views together *)

(** X23: when no row has an age, every age group other than "All Ages"
    empties the view: the page shows the guidance message and nothing
    else. *)
Theorem age_group_on_ageless_data (brca_df : DataFrame) (w : Widgets) :
  (∀ r, r ∈ brca_df → age r = None) →
  1 ≤ age_group_picked w ≤ 3 →
  page_sites_demographics (Some brca_df) w =
    [st_header "Sites & Demographics Map View";
     st_sidebar_subheader "Filters";
     st_warning "No data matches current filters. Please adjust your selection."].
Proof.
  intros Hage Hpick. rewrite page_loaded.
  destruct (filtered_of brca_df w) as [|r d] eqn:Hf; [done|]. exfalso.
  assert (Hr : r ∈ filtered_of brca_df w) by (rewrite Hf; constructor).
  unfold filtered_of in Hr.
  apply elem_of_apply_filters in Hr as (Hin & _ & _ & _ & Hmask).
  unfold age_mask in Hmask. rewrite (Hage r Hin) in Hmask.
  destruct (age_group_picked w) as [|[|[|[|n]]]]; try lia; done.
Qed.

(** X24: the race and ethnicity chart stays within the selections: under
    a non-empty race selection every bar is of a selected race, under a
    non-empty ethnicity selection of a selected ethnicity, and every bar
    stands for at least one row. *)
Theorem demo_chart_within_selection (brca_df : DataFrame)
    (sr se sg : list string) (ag : string) (p : string * string * nat) :
  p ∈ demo_counts (apply_filters brca_df sr se sg ag) →
  (sr ≠ [] → p.1.1 ∈ sr) ∧ (se ≠ [] → p.1.2 ∈ se) ∧ 0 < p.2.
Proof.
  intros Hp. eapply elem_of_sublist in Hp; [|apply demo_counts_sublist].
  apply elem_of_sort_values_desc, elem_of_groupby_size in Hp as [Hkey Hcount].
  assert (Hpos : 0 < p.2) by (rewrite Hcount; by apply occurrences_pos).
  apply list_elem_of_omap in Hkey as (r & Hr & Hk).
  apply elem_of_apply_filters in Hr as (_ & Hrace & Heth & _ & _).
  unfold group_key in Hk.
  destruct (race r) as [a|] eqn:Ha; [|done].
  destruct (ethnicity r) as [b|] eqn:Hb; [|done].
  injection Hk as <-. simpl.
  apply isin_mask_true in Hrace, Heth. rewrite Ha in Hrace. rewrite Hb in Heth.
  split_and!; [| |done]; intros Hne.
  - destruct Hrace as [?|(v & [= <-] & Hv)]; done.
  - destruct Heth as [?|(v & [= <-] & Hv)]; done.
Qed.

Example demo_chart_within_selection_witness :
  let df := [mkRow (Some "White") (Some "Hispanic") None None None None;
             mkRow (Some "Black") (Some "Hispanic") None None None None] in
  ("White", "Hispanic", 1) ∈ demo_counts (apply_filters df ["White"] [] [] "All Ages") ∧
  "White" ∈ ["White"].
Proof.
  cbv zeta. split; [vm_compute; by left|].
  match goal with |- _ ∈ ?sr =>
    destruct (demo_chart_within_selection
                [mkRow (Some "White") (Some "Hispanic") None None None None;
                 mkRow (Some "Black") (Some "Hispanic") None None None None]
                sr [] [] "All Ages" ("White", "Hispanic", 1)) as (Hrace & _)
  end.
  - vm_compute. by left.
  - by apply Hrace.
Defined.

Example age_group_on_ageless_data_witness :
  let brca_df := [mkRow (Some "White") None None None (Some "Lung") None] in
  let w := mkWidgets [] [] 3 [] 0 in
  page_sites_demographics (Some brca_df) w =
    [st_header "Sites & Demographics Map View";
     st_sidebar_subheader "Filters";
     st_warning "No data matches current filters. Please adjust your selection."].
Proof.
  cbv zeta. apply age_group_on_ageless_data.
  - intros r Hr. apply list_elem_of_singleton in Hr as ->. done.
  - simpl. lia.
Defined.

Example stage_counts_total_witness :
  let d := [mkRow None None None None None (Some "II");
            mkRow None None None None None (Some "Unknown");
            mkRow None None None None None None;
            mkRow None None None None None (Some "II")] in
  ("II", 2) ∈ stage_counts d ∧ 0 < 2 ∧ total (stage_counts d) = 2.
Proof.
  cbv zeta.
  match goal with |- _ ∈ stage_counts ?d ∧ _ =>
    destruct (stage_counts_total d) as (Htotal & _ & Hpos)
  end.
  split; [vm_compute; by left|]. split.
  - apply (Hpos ("II", 2)). vm_compute. by left.
  - rewrite Htotal. reflexivity.
Defined.

(** ** Race and ethnicity breakdown, whatever the sort *)

Lemma key_lt_asym k1 k2 : key_lt k1 k2 → key_lt k2 k1 → False.
Proof.
  destruct k1 as [a1 b1], k2 as [a2 b2]. unfold key_lt. simpl.
  rewrite (String.compare_antisym a2 a1), (String.compare_antisym b2 b1).
  intros [H1|[-> H1]] [H2|[H2 H3]].
  - rewrite H1 in H2. done.
  - subst. by rewrite string_compare_refl in H1.
  - by rewrite string_compare_refl in H2.
  - rewrite H1 in H3. done.
Qed.

Lemma occurrences_Permutation `{EqDecision A} (x : A) (l1 l2 : list A) :
  l1 ≡ₚ l2 → occurrences x l1 = occurrences x l2.
Proof. intros Hp. unfold occurrences. by rewrite Hp. Qed.

Lemma unique_Permutation `{EqDecision A} (l1 l2 : list A) :
  l1 ≡ₚ l2 → unique l1 ≡ₚ unique l2.
Proof.
  intros Hp. apply NoDup_Permutation; [apply NoDup_unique..|].
  intros x. by rewrite !elem_of_unique, Hp.
Qed.

(** Distinct keys have one ascending order. *)
Lemma sort_keys_canonical l1 l2 :
  NoDup l1 → NoDup l2 → l1 ≡ₚ l2 → sort_keys l1 = sort_keys l2.
Proof.
  intros Hnd1 Hnd2 Hp.
  apply (StronglySorted_unique_strong key_lt); [|by apply sort_keys_sorted..|].
  - intros k1 k2 _ _ H12 H21. destruct (key_lt_asym _ _ H12 H21).
  - by rewrite !sort_keys_Permutation.
Qed.

(** The group table does not depend on the order of the rows. *)
Lemma groupby_size_Permutation df1 df2 :
  df1 ≡ₚ df2 → groupby_size df1 = groupby_size df2.
Proof.
  intros Hp. unfold groupby_size. cbv zeta.
  assert (Hkeys : omap group_key df1 ≡ₚ omap group_key df2) by by rewrite Hp.
  rewrite (sort_keys_canonical (unique (omap group_key df1)) (unique (omap group_key df2)))
    by auto using NoDup_unique, unique_Permutation.
  apply list_fmap_ext. intros i k _. simpl. f_equal.
  by apply occurrences_Permutation.
Qed.

(** The count of a group is the number of rows holding both its race
    and its ethnicity; a row with either cell missing is in no group. *)
Lemma occurrences_group_key (a b : string) df :
  occurrences (a, b) (omap group_key df) =
  length (filter (λ r, race r = Some a ∧ ethnicity r = Some b) df).
Proof.
  induction df as [|r df IH]; [done|].
  rewrite filter_cons. unfold group_key at 1. csimpl.
  destruct (race r) as [x|], (ethnicity r) as [y|]; csimpl;
    rewrite ?occurrences_cons; repeat case_decide; simpl; rewrite ?IH;
    try done; naive_solver.
Qed.

Lemma sort_values_desc_sorts {K} :
  sorts_by_count_desc (sort_values_desc (snd : K * nat → nat)).
Proof.
  intros table. split; [apply sort_values_desc_Permutation|].
  eapply StronglySorted_on;
    [|apply (sort_values_desc_ranked snd (λ _ _, True))].
  - intros p q _ _ [Hlt|[Heq _]]; lia.
  - induction table; constructor; [done|]. by apply Forall_forall.
Qed.

Section AnySort.
Variable sort_values : list (string * string * nat) → list (string * string * nat).
Hypothesis sort_values_sorts : sorts_by_count_desc sort_values.

Lemma elem_of_sort_values p table : p ∈ sort_values table ↔ p ∈ table.
Proof. by rewrite (proj1 (sort_values_sorts table)). Qed.

Lemma demo_counts_by_sublist df :
  demo_counts_by sort_values df `sublist_of` sort_values (groupby_size df).
Proof. apply sublist_take. Qed.

Lemma demo_counts_by_length df :
  length (demo_counts_by sort_values df) = 10 `min` length (unique (omap group_key df)).
Proof.
  unfold demo_counts_by.
  rewrite length_take, (proj1 (sort_values_sorts _)).
  by rewrite <-(length_fmap fst), groupby_size_keys, sort_keys_Permutation.
Qed.

Lemma demo_counts_by_top df k p :
  k ∈ omap group_key df → k ∉ fst <$> demo_counts_by sort_values df →
  p ∈ demo_counts_by sort_values df →
  occurrences k (omap group_key df) ≤ p.2.
Proof.
  unfold demo_counts_by. set (S := sort_values (groupby_size df)).
  intros Hk Hout Hp.
  apply elem_of_take in Hp as (i & Hi & Hlt).
  assert (Hq : (k, occurrences k (omap group_key df)) ∈ S).
  { apply elem_of_sort_values, elem_of_groupby_size. done. }
  apply list_elem_of_lookup_1 in Hq as (j & Hj).
  assert (Hge : 10 ≤ j).
  { destruct (decide (j < 10)) as [Hjlt|]; [|lia]. exfalso. apply Hout.
    apply list_elem_of_fmap. eexists. split; [|apply elem_of_take; eauto]. done. }
  assert (Hij : i < j) by lia.
  exact (StronglySorted_lookup _ _ _ _ _ _
           (proj2 (sort_values_sorts (groupby_size df))) Hij Hi Hj).
Qed.
End AnySort.

(** C2, as the code has it: the breakdown is the top ten of the group
    table ranked by decreasing count.  It holds exactly ten groups, or
    all of them when there are fewer, each once; a group is a race and an
    ethnicity with the number of rows holding both, so a row with a
    missing race or ethnicity is in no group; counts do not increase down
    the table, and no group left out has more rows than a group kept.
    The sort behind the ranking is the library's default one, which is
    not stable: the order it gives groups of equal count is open, and it
    is not the order in which the keys are met, for the breakdown, ties
    included, is the same for every order of the rows. *)
Theorem demo_counts_by_is_top_ten
    (sort_values : list (string * string * nat) → list (string * string * nat))
    (filtered_df : DataFrame) :
  sorts_by_count_desc sort_values →
  let keys := omap group_key filtered_df in
  let out := demo_counts_by sort_values filtered_df in
  length out = 10 `min` length (unique keys) ∧
  NoDup (fst <$> out) ∧
  (∀ a b n, (a, b, n) ∈ out →
     0 < n ∧
     n = length (filter (λ r, race r = Some a ∧ ethnicity r = Some b) filtered_df)) ∧
  (∀ i j p q, i < j → out !! i = Some p → out !! j = Some q → q.2 ≤ p.2) ∧
  (∀ k p, k ∈ keys → k ∉ fst <$> out → p ∈ out → occurrences k keys ≤ p.2) ∧
  (∀ reordered, reordered ≡ₚ filtered_df →
     demo_counts_by sort_values reordered = out).
Proof.
  intros Hsort. cbv zeta. split_and!.
  - by apply demo_counts_by_length.
  - unfold demo_counts_by. rewrite fmap_take.
    eapply sublist_NoDup; [|apply sublist_take].
    rewrite (proj1 (Hsort _)), groupby_size_keys, sort_keys_Permutation.
    apply NoDup_unique.
  - intros a b n Hin.
    eapply elem_of_sublist in Hin; [|by apply demo_counts_by_sublist].
    apply (elem_of_sort_values _ Hsort), elem_of_groupby_size in Hin as [Hkey Hn].
    simpl in Hkey, Hn. rewrite <-occurrences_group_key, <-Hn.
    split; [|done]. rewrite Hn. by apply occurrences_pos.
  - intros i j p q Hij Hi Hj.
    eapply (StronglySorted_lookup (λ p q, q.2 ≤ p.2)); [|exact Hij|exact Hi|exact Hj].
    eapply StronglySorted_sublist; [by apply demo_counts_by_sublist|].
    apply Hsort.
  - intros k p. by apply demo_counts_by_top.
  - intros reordered Hp. unfold demo_counts_by.
    by rewrite (groupby_size_Permutation _ _ Hp).
Qed.

Example demo_counts_by_is_top_ten_witness :
  let df := [mkRow (Some "White") (Some "Hispanic") None None None None;
             mkRow (Some "White") None None None None None;
             mkRow (Some "Black") (Some "Hispanic") None None None None;
             mkRow (Some "White") (Some "Hispanic") None None None None] in
  let out := demo_counts_by (sort_values_desc snd) df in
  out = [("White", "Hispanic", 2); ("Black", "Hispanic", 1)] ∧
  length out = 10 `min` length (unique (omap group_key df)) ∧
  2 = length (filter (λ r, race r = Some "White" ∧ ethnicity r = Some "Hispanic") df).
Proof.
  cbv zeta. split; [reflexivity|].
  match goal with |- length (demo_counts_by _ ?df) = _ ∧ _ =>
    destruct (demo_counts_by_is_top_ten (sort_values_desc snd) df sort_values_desc_sorts)
      as (Hlen & _ & Hrows & _)
  end.
  split; [exact Hlen|].
  apply (Hrows "White" "Hispanic" 2). apply list_elem_of_In. vm_compute. by left.
Defined.

(** C2, as the claim has it, fails whatever the sort: no sort by
    decreasing count makes ties come out in the order the keys are met.
    Two groups of one row each give the same group table whichever is met
    first, so the same breakdown, which cannot follow both orders. *)
Lemma demo_counts_ties_not_in_encounter_order :
  ¬ ∃ sort_values : list (string * string * nat) → list (string * string * nat),
      sorts_by_count_desc sort_values ∧
      ∀ (filtered_df : DataFrame) i j p q,
        i < j →
        demo_counts_by sort_values filtered_df !! i = Some p →
        demo_counts_by sort_values filtered_df !! j = Some q →
        p.2 = q.2 →
        first_seen p.1 (omap group_key filtered_df)
        < first_seen q.1 (omap group_key filtered_df).
Proof.
  intros (sort_values & Hsort & Hclaim).
  set (white := mkRow (Some "White") (Some "Hispanic") None None None None).
  set (black := mkRow (Some "Black") (Some "Hispanic") None None None None).
  pose proof (Hclaim [white; black] 0 1) as H1.
  pose proof (Hclaim [black; white] 0 1) as H2.
  unfold demo_counts_by in H1, H2.
  rewrite (groupby_size_Permutation [black; white] [white; black])
    in H2 by apply Permutation_swap.
  change (groupby_size [white; black])
    with [("Black", "Hispanic", 1); ("White", "Hispanic", 1)] in H1, H2.
  destruct (Hsort [("Black", "Hispanic", 1); ("White", "Hispanic", 1)]) as [Hperm _].
  destruct (sort_values _) as [|x [|y [|z l]]];
    try (apply Permutation_length in Hperm; simpl in Hperm; lia).
  assert (Hx : x ∈ [("Black", "Hispanic", 1); ("White", "Hispanic", 1)])
    by (rewrite <-Hperm; constructor).
  assert (Hy : y ∈ [("Black", "Hispanic", 1); ("White", "Hispanic", 1)])
    by (rewrite <-Hperm; do 2 constructor).
  assert (Hxy : x ≠ y).
  { assert (Hnd : NoDup [x; y]).
    { rewrite Hperm. repeat constructor; rewrite ?elem_of_cons, ?elem_of_nil;
        naive_solver. }
    apply NoDup_cons in Hnd as [Hnd _]. intros ->. apply Hnd. constructor. }
  specialize (H1 x y (le_n 1) eq_refl eq_refl).
  specialize (H2 x y (le_n 1) eq_refl eq_refl).
  apply elem_of_cons in Hx as [->|Hx]; [|apply list_elem_of_singleton in Hx as ->];
    (apply elem_of_cons in Hy as [->|Hy]; [|apply list_elem_of_singleton in Hy as ->]);
    try done.
  - specialize (H1 eq_refl). vm_compute in H1. lia.
  - specialize (H2 eq_refl). vm_compute in H2. lia.
Qed.
